(** * spaCyChatBot: the sentence typer, the verb finder, the point-of-view
    substitution and the reply handlers of [spaCyChatBot.py].

    Python strings are sequences of Unicode code points; a text is a list of
    code points here.  Attribute values of tokens (tag, part of speech,
    dependency label, lemma, lower-cased form) are only ever compared for
    equality, they are plain strings. *)

From Stdlib Require Import String Ascii NArith Arith Bool Lia.
From Stdlib Require Import List Sorting.Sorted Sorting.Permutation.
Import ListNotations.

Local Open Scope string_scope.
Local Open Scope list_scope.

(** ** Texts *)

Definition char := N.
Definition text := list char.

(** A string literal of the source as a text. *)
Definition py (s : string) : text := map N_of_ascii (list_ascii_of_string s).

Fixpoint text_eqb (a b : text) : bool :=
  match a, b with
  | [], [] => true
  | x :: a', y :: b' => N.eqb x y && text_eqb a' b'
  | _, _ => false
  end.

(** [s.startswith(k)] *)
Fixpoint startswith (k s : text) : bool :=
  match k, s with
  | [], _ => true
  | x :: k', y :: s' => N.eqb x y && startswith k' s'
  | _ :: _, [] => false
  end.

(** [sep.join(parts)] *)
Fixpoint join (sep : text) (parts : list text) : text :=
  match parts with
  | [] => []
  | [p] => p
  | p :: rest => p ++ sep ++ join sep rest
  end.

Definition in_range (lo hi c : N) : bool := N.leb lo c && N.leb c hi.

(** The ASCII part of the class [\w]: digits, letters and the underscore. *)
Definition ascii_word (c : char) : bool :=
  in_range 48 57 c || in_range 65 90 c || in_range 97 122 c || N.eqb c 95.

Definition is_ascii (c : char) : bool := N.ltb c 128.

Definition ascii_lower (c : char) : char :=
  if in_range 65 90 c then (c + 32)%N else c.

(** ** The point-of-view lexicon ([povs], lines 79-98)

    A Python dict keeps its keys in insertion order, and the pattern is built
    from that order, so the lexicon is an association list. *)

Definition povs : list (text * text) :=
  [ (py "I am", py "you are");
    (py "I was", py "you were");
    (py "I'm", py "you're");
    (py "I'd", py "you'd");
    (py "I've", py "you've");
    (py "I'll", py "you'll");
    (py "you are", py "I am");
    (py "you were", py "I was");
    (py "you're", py "I'm");
    (py "you'd", py "I'd");
    (py "you've", py "I've");
    (py "you'll", py "I'll");
    (py "I", py "you");
    (py "my", py "your");
    (py "your", py "my");
    (py "yours", py "mine");
    (py "you", py "I");
    (py "me", py "you") ].

(** [d.get(k)]: the value of the key, [None] when the key is missing. *)
Fixpoint dict_get (d : list (text * text)) (k : text) : option text :=
  match d with
  | [] => None
  | (k', v) :: d' => if text_eqb k' k then Some v else dict_get d' k
  end.

(** A compiled pattern of the shape [\b(a1|a2|...|an)\b]: the alternatives in
    their order. *)
Record WordAlt := { alts : list text }.

(** [povs_c = re.compile(r'\b({})\b'.format('|'.join(re.escape(pov) for pov in povs)))] *)
Definition povs_c : WordAlt := {| alts := map fst povs |}.

(** What a left-to-right scan of a text yields: a character outside every
    match, or a matched substring. *)
Inductive piece :=
| Lit (c : char)
| Hit (m : text).

(** ** Annotated tokens and sentences (what spaCy hands to the code) *)

Record Token := {
  text_ : text;            (* token.text *)
  whitespace_ : text;      (* token.whitespace_, the blank after the token *)
  lower_ : string;         (* token.lower_ *)
  lemma_ : string;         (* token.lemma_ *)
  tag_ : string;           (* token.tag_ *)
  pos_ : string;           (* token.pos_ *)
  dep_ : string;           (* token.dep_ *)
  is_sent_start : bool;    (* token.is_sent_start *)
  head : nat               (* index of token.head in the sentence; a root is its own head *)
}.

(** A noun chunk: [chunk.text] and [chunk.root]. *)
Record Chunk := { chunk_text : text; chunk_root : Token }.

(** One sentence of [doc.sents]; [sentence.as_doc()] has the same tokens, and a
    token is referred to by its index in the sentence. *)
Record Sentence := { tokens : list Token; noun_chunks : list Chunk }.

(** [sentence.text]: the tokens with the blanks between them, without the blank
    after the last one. *)
Fixpoint span_text (toks : list Token) : text :=
  match toks with
  | [] => []
  | [t] => text_ t
  | t :: rest => text_ t ++ whitespace_ t ++ span_text rest
  end.

(** ** Token patterns ([spacy.matcher.Matcher]) *)

Inductive Attr := IS_SENT_START | TAG | POS | LOWER | LEMMA | DEP.

(** The right-hand side of an attribute in a pattern: a value, [{"IN": [...]}]
    or a flag. *)
Inductive AttrVal :=
| Is (v : string)
| IN (vs : list string)
| Flag (b : bool).

Definition TokenPattern := list (Attr * AttrVal).
Definition Pattern := list TokenPattern.

Definition attr_str (a : Attr) (t : Token) : option string :=
  match a with
  | TAG => Some (tag_ t)
  | POS => Some (pos_ t)
  | LOWER => Some (lower_ t)
  | LEMMA => Some (lemma_ t)
  | DEP => Some (dep_ t)
  | IS_SENT_START => None
  end.

Definition attr_holds (t : Token) (c : Attr * AttrVal) : bool :=
  match c with
  | (IS_SENT_START, Flag b) => Bool.eqb (is_sent_start t) b
  | (a, Is v) => match attr_str a t with Some x => String.eqb x v | None => false end
  | (a, IN vs) => match attr_str a t with Some x => existsb (String.eqb x) vs | None => false end
  | (_, Flag _) => false
  end.

(** A token satisfies a token pattern when every attribute of it holds. *)
Definition token_matches (tp : TokenPattern) (t : Token) : bool :=
  forallb (attr_holds t) tp.

(** A partial match of the matcher: the key of the pattern, what is left of
    the pattern, where the match started and how many tokens it has read. *)
Record PatternState := {
  st_key : string;
  st_rest : Pattern;
  st_start : nat;
  st_length : nat
}.

(** A match: key, start and end (exclusive). *)
Definition MatchC := (string * nat * nat)%type.

Inductive Action := REJECT | MATCH | ADVANCE.

(** What a state does on the next token.  The patterns of this program have no
    operators, so a state rejects, advances by one token pattern, or finishes. *)
Definition get_action (st : PatternState) (t : Token) : Action :=
  match st_rest st with
  | [] => REJECT
  | tp :: more =>
      if token_matches tp t
      then match more with [] => MATCH | _ :: _ => ADVANCE end
      else REJECT
  end.

(** The matches the states emit on token [t], in the order of the states. *)
Definition emitted (states : list PatternState) (t : Token) : list MatchC :=
  flat_map (fun st =>
              match get_action st t with
              | MATCH => [(st_key st, st_start st, st_start st + st_length st + 1)]
              | _ => []
              end) states.

(** The states still alive after token [t], advanced, in the order of the
    states. *)
Definition survivors (states : list PatternState) (t : Token) : list PatternState :=
  flat_map (fun st =>
              match get_action st t with
              | ADVANCE => [{| st_key := st_key st; st_rest := tl (st_rest st);
                               st_start := st_start st; st_length := S (st_length st) |}]
              | _ => []
              end) states.

(** The main loop of the matcher: at token [i] a fresh state is pushed for
    every pattern, after the states already alive, and all states read the
    token.  Matches are therefore reported by the token they end on, then by
    their start, then in the order the patterns were added. *)
Fixpoint find_loop (patterns : list (string * Pattern)) (i : nat)
         (toks : list Token) (states : list PatternState) : list MatchC :=
  match toks with
  | [] => []
  | t :: toks' =>
      let states' :=
        states ++ map (fun kp => {| st_key := fst kp; st_rest := snd kp;
                                    st_start := i; st_length := 0 |}) patterns in
      emitted states' t ++ find_loop patterns (S i) toks' (survivors states' t)
  end.

Definition match_eqb (a b : MatchC) : bool :=
  let '(k1, s1, e1) := a in
  let '(k2, s2, e2) := b in
  String.eqb k1 k2 && Nat.eqb s1 s2 && Nat.eqb e1 e2.

(** A match already seen is not reported again. *)
Fixpoint unseen (seen : list MatchC) (ms : list MatchC) : list MatchC :=
  match ms with
  | [] => []
  | m :: ms' =>
      if existsb (match_eqb m) seen then unseen seen ms'
      else m :: unseen (m :: seen) ms'
  end.

(** [Matcher.__call__(doc)] *)
Definition Matcher_call (patterns : list (string * Pattern)) (toks : list Token)
  : list MatchC :=
  unseen [] (find_loop patterns 0 toks []).

(** [matcher.add(key, patterns)] *)
Definition add (key : string) (pats : list Pattern) (m : list (string * Pattern))
  : list (string * Pattern) :=
  m ++ map (fun p => (key, p)) pats.

(** ** SentenceTyper (lines 14-51) *)

(** The pattern variants of [SentenceTyper.__init__], in the order they are
    added. *)
Definition wh_question_1 : Pattern :=
  [ [(IS_SENT_START, Flag true); (TAG, IN ["WDT"; "WP"; "WP$"; "WRB"])] ].
Definition yn_question_1 : Pattern :=
  [ [(IS_SENT_START, Flag true); (TAG, Is "MD")];
    [(POS, IN ["PRON"; "PROPN"; "DET"])] ].
Definition yn_question_2 : Pattern :=
  [ [(IS_SENT_START, Flag true); (POS, Is "VERB")];
    [(POS, IN ["PRON"; "PROPN"; "DET"])];
    [(POS, Is "VERB")] ].
Definition instruction_1 : Pattern :=
  [ [(IS_SENT_START, Flag true); (TAG, Is "VB")] ].
Definition instruction_2 : Pattern :=
  [ [(IS_SENT_START, Flag true); (LOWER, IN ["please"; "kindly"])];
    [(TAG, Is "VB")] ].
Definition wish_1 : Pattern :=
  [ [(IS_SENT_START, Flag true); (TAG, Is "PRP")];
    [(TAG, Is "MD")];
    [(POS, Is "VERB"); (LEMMA, IN ["love"; "like"; "appreciate"])] ].
Definition wish_2 : Pattern :=
  [ [(IS_SENT_START, Flag true); (TAG, Is "PRP")];
    [(POS, Is "VERB"); (LEMMA, IN ["want"; "need"; "require"])] ].

(** [SentenceTyper.__init__] *)
Definition SentenceTyper : list (string * Pattern) :=
  add "WISH" [wish_1; wish_2]
  (add "INSTRUCTION" [instruction_1; instruction_2]
  (add "YN-QUESTION" [yn_question_1; yn_question_2]
  (add "WH-QUESTION" [wh_question_1]
  []))).

(** The five handlers, by name: what [SentenceTyper.__call__] returns is one of
    the functions [wh_question_handler], [yn_question_handler],
    [wish_handler], [instruction_handler] and [generic_handler]. *)
Inductive Intent := WH_QUESTION | YN_QUESTION | WISH | INSTRUCTION | GENERIC.

(** [SentenceTyper.__call__]: the handler for the first match; [None] is the
    Python [None] the method returns when it falls through its [elif] chain. *)
Definition SentenceTyper_call (toks : list Token) : option Intent :=
  match Matcher_call SentenceTyper toks with
  | (match_id, _, _) :: _ =>
      if String.eqb match_id "WH-QUESTION" then Some WH_QUESTION
      else if String.eqb match_id "YN-QUESTION" then Some YN_QUESTION
      else if String.eqb match_id "WISH" then Some WISH
      else if String.eqb match_id "INSTRUCTION" then Some INSTRUCTION
      else None
  | [] => Some GENERIC
  end.

(** ** Dependency patterns ([spacy.matcher.DependencyMatcher]) *)

(** The one relation the program uses: [">"], the left node is the immediate
    head of the right node. *)
Inductive RelOp := ImmediateHead.

(** A node of a dependency pattern; the anchor node has no [LEFT_ID]. *)
Record DepNode := {
  RIGHT_ID : string;
  RIGHT_ATTRS : TokenPattern;
  LEFT : option (string * RelOp)       (* LEFT_ID and REL_OP *)
}.

Definition DepPattern := list DepNode.

(** The positions of the tokens that satisfy a token pattern, ascending (what
    the inner matcher reports for a one-token pattern). *)
Definition candidates (tp : TokenPattern) (toks : list Token) : list nat :=
  filter (fun i => match nth_error toks i with
                   | Some t => token_matches tp t
                   | None => false
                   end) (seq 0 (length toks)).

(** [token.children] of token [r]: the other tokens whose head is [r], in
    sentence order. *)
Definition children (toks : list Token) (r : nat) : list nat :=
  filter (fun i => match nth_error toks i with
                   | Some t => Nat.eqb (head t) r && negb (Nat.eqb i r)
                   | None => false
                   end) (seq 0 (length toks)).

Definition related (toks : list Token) (op : RelOp) (a b : nat) : bool :=
  match op with
  | ImmediateHead => existsb (Nat.eqb b) (children toks a)
  end.

(** [itertools.product]: the first list varies slowest. *)
Fixpoint product (ls : list (list nat)) : list (list nat) :=
  match ls with
  | [] => [[]]
  | l :: rest => flat_map (fun x => map (cons x) (product rest)) l
  end.

(** The index of the node named [id] in a pattern. *)
Fixpoint node_index (id : string) (pat : DepPattern) : option nat :=
  match pat with
  | [] => None
  | n :: rest =>
      if String.eqb (RIGHT_ID n) id then Some 0
      else option_map S (node_index id rest)
  end.

(** An assignment of positions to the nodes is a match when every relation to
    a left node holds. *)
Definition valid (pat : DepPattern) (toks : list Token) (cand : list nat) : bool :=
  forallb (fun np =>
             match LEFT (fst np) with
             | None => true
             | Some (lid, op) =>
                 match node_index lid pat with
                 | Some j => match nth_error cand j with
                             | Some a => related toks op a (snd np)
                             | None => false
                             end
                 | None => false
                 end
             end) (combine pat cand).

(** One step up the tree: the head of a token (the position itself where
    there is no token). *)
Definition step_head (toks : list Token) (i : nat) : nat :=
  match nth_error toks i with
  | Some t => head t
  | None => i
  end.

(** The last of [[token] + list(token.ancestors)]: the heads are followed up
    to a token that is its own head, at most as many times as the sentence
    has tokens. *)
Fixpoint top_ancestor (toks : list Token) (fuel : nat) (i : nat) : nat :=
  match fuel with
  | O => i
  | S fuel' =>
      let h := step_head toks i in
      if Nat.eqb h i then i else top_ancestor toks fuel' h
  end.

Definition tree_root (toks : list Token) (i : nat) : nat :=
  top_ancestor toks (length toks) i.

(** The elements of a list in the order of their first occurrences. *)
Fixpoint distinct (seen l : list nat) : list nat :=
  match l with
  | [] => []
  | x :: l' =>
      if existsb (Nat.eqb x) seen then distinct seen l'
      else x :: distinct (x :: seen) l'
  end.

(** The token patterns the inner matcher holds: one for every node of every
    pattern. *)
Definition node_patterns (m : list (string * DepPattern)) : list TokenPattern :=
  flat_map (fun kp => map RIGHT_ATTRS (snd kp)) m.

(** The trees that hold a token the inner matcher reports, each by its top
    token, in the order in which their first reported tokens come. *)
Definition trees (m : list (string * DepPattern)) (toks : list Token) : list nat :=
  distinct []
    (map (tree_root toks)
       (filter (fun i => match nth_error toks i with
                         | Some t => existsb (fun tp => token_matches tp t)
                                             (node_patterns m)
                         | None => false
                         end) (seq 0 (length toks)))).

(** The candidates of a token pattern inside the tree with top token [g]. *)
Definition tree_candidates (tp : TokenPattern) (toks : list Token) (g : nat) : list nat :=
  filter (fun i => Nat.eqb (tree_root toks i) g) (candidates tp toks).

(** The matches of a pattern inside one tree. *)
Definition dep_matches (pat : DepPattern) (toks : list Token) (g : nat)
  : list (list nat) :=
  filter (valid pat toks)
         (product (map (fun n => tree_candidates (RIGHT_ATTRS n) toks g) pat)).

(** [DependencyMatcher.__call__(doc)]: the tokens the inner matcher reports
    are grouped by tree; the matches are those of each pattern, in the order
    the patterns were added, inside each tree in turn. *)
Definition DependencyMatcher_call (m : list (string * DepPattern)) (toks : list Token)
  : list (string * list nat) :=
  flat_map (fun kp =>
              flat_map (fun g => map (fun idxs => (fst kp, idxs))
                                     (dep_matches (snd kp) toks g))
                       (trees m toks)) m.

(** ** VerbFinder (lines 54-76) *)

Definition root_node : DepNode :=
  {| RIGHT_ID := "root"; RIGHT_ATTRS := [(DEP, Is "ROOT")]; LEFT := None |}.

Definition child_node (id : string) (attrs : TokenPattern) : DepNode :=
  {| RIGHT_ID := id; RIGHT_ATTRS := attrs; LEFT := Some ("root", ImmediateHead) |}.

(** The three patterns of [VerbFinder.__init__], in the order of the list. *)
Definition shape_a : DepPattern :=
  [ root_node;
    child_node "auxiliary" [(TAG, Is "VB")];
    child_node "modal" [(TAG, Is "MD")] ].
Definition shape_b : DepPattern :=
  [ root_node;
    child_node "auxiliary" [(POS, Is "AUX")] ].
Definition shape_c : DepPattern :=
  [ root_node ].

(** [VerbFinder.__init__] *)
Definition VerbFinder : list (string * DepPattern) :=
  map (fun p => ("VERBPHRASE", p)) [shape_a; shape_b; shape_c].

Fixpoint insert_sorted (x : nat) (l : list nat) : list nat :=
  match l with
  | [] => [x]
  | y :: l' => if Nat.leb x y then x :: l else y :: insert_sorted x l'
  end.

(** [sorted(xs)] *)
Definition sorted (l : list nat) : list nat := fold_right insert_sorted [] l.

(** [VerbFinder.__call__]: the sorted token indices of the first match; with
    no match the method ends without a [return], which is [None]. *)
Definition VerbFinder_call (toks : list Token) : option (list nat) :=
  match DependencyMatcher_call VerbFinder toks with
  | (_, token_idxs) :: _ => Some (sorted token_idxs)
  | [] => None
  end.

(** ** Effects of the handlers: exceptions and [random] *)

Inductive Exn := TypeError | IndexError.

Inductive result (A : Type) :=
| Ok (a : A)
| Raise (e : Exn).
Arguments Ok {A} a.
Arguments Raise {A} e.

(** A computation reads the random source, a tape of draws, and returns a
    value or raises. *)
Definition M (A : Type) := list nat -> result A * list nat.

Definition ret {A} (a : A) : M A := fun tape => (Ok a, tape).
Definition raise {A} (e : Exn) : M A := fun tape => (Raise e, tape).
Definition bind {A B} (m : M A) (f : A -> M B) : M B :=
  fun tape =>
    match m tape with
    | (Ok a, tape') => f a tape'
    | (Raise e, tape') => (Raise e, tape')
    end.

Notation "x <- m ;; k" := (bind m (fun x => k))
  (at level 61, m at next level, right associativity).

(** [random.choice(seq)] of a non-empty sequence: the next draw picks the
    element. *)
Definition random_choice (seq : list text) : M text :=
  fun tape =>
    match tape with
    | n :: tape' => (Ok (nth (n mod length seq) seq []), tape')
    | [] => (Ok (nth 0 seq []), [])
    end.

(** [sentence[i]] *)
Definition getitem (sentence : Sentence) (i : nat) : M Token :=
  match nth_error (tokens sentence) i with
  | Some t => ret t
  | None => raise IndexError
  end.

(** [for i in verbs_idxs]: iterating over [None] is a [TypeError]. *)
Definition iter (verbs_idxs : option (list nat)) : M (list nat) :=
  match verbs_idxs with
  | Some l => ret l
  | None => raise TypeError
  end.

Fixpoint mapM {A B} (f : A -> M B) (l : list A) : M (list B) :=
  match l with
  | [] => ret []
  | x :: l' => y <- f x ;; ys <- mapM f l' ;; ret (y :: ys)
  end.

(** [[chunk.text for chunk in sentence.noun_chunks if chunk.root.dep_ == dep]] *)
Definition chunks_with (dep : string) (sentence : Sentence) : list text :=
  map chunk_text
      (filter (fun c => String.eqb (dep_ (chunk_root c)) dep) (noun_chunks sentence)).

(** [if part: reply.append(part[0])] *)
Definition append_first (reply : list text) (part : list text) : list text :=
  match part with
  | p :: _ => reply ++ [p]
  | [] => reply
  end.

(** ** Example sentences, with the annotations of en_core_web_sm *)

Definition tok (tx ws low lemma tag pos dep : string) (start : bool) (h : nat) : Token :=
  {| text_ := py tx; whitespace_ := py ws; lower_ := low; lemma_ := lemma;
     tag_ := tag; pos_ := pos; dep_ := dep; is_sent_start := start; head := h |}.

Definition tok_What := tok "What" " " "what" "what" "WP" "PRON" "attr" true 1.
Definition tok_name := tok "name" "" "name" "name" "NN" "NOUN" "nsubj" false 1.

(** "What is your name?" *)
Definition what_is_your_name : Sentence :=
  {| tokens :=
       [ tok_What;
         tok "is" " " "is" "be" "VBZ" "AUX" "ROOT" false 1;
         tok "your" " " "your" "your" "PRP$" "PRON" "poss" false 3;
         tok_name;
         tok "?" "" "?" "?" "." "PUNCT" "punct" false 1 ];
     noun_chunks :=
       [ {| chunk_text := py "What"; chunk_root := tok_What |};
         {| chunk_text := py "your name"; chunk_root := tok_name |} ] |}.

Definition tok_me := tok "me" " " "me" "I" "PRP" "PRON" "nsubj" false 2.
Definition tok_it := tok "it" "" "it" "it" "PRP" "PRON" "dobj" false 2.

(** "Help me find it." *)
Definition help_me_find_it : Sentence :=
  {| tokens :=
       [ tok "Help" " " "help" "help" "VB" "VERB" "ROOT" true 0;
         tok_me;
         tok "find" " " "find" "find" "VB" "VERB" "ccomp" false 0;
         tok_it;
         tok "." "" "." "." "." "PUNCT" "punct" false 0 ];
     noun_chunks :=
       [ {| chunk_text := py "me"; chunk_root := tok_me |};
         {| chunk_text := py "it"; chunk_root := tok_it |} ] |}.

Definition tok_I := tok "I" " " "i" "I" "PRP" "PRON" "nsubj" true 2.

(** "I would like to go." *)
Definition i_would_like_to_go : Sentence :=
  {| tokens :=
       [ tok_I;
         tok "would" " " "would" "would" "MD" "AUX" "aux" false 2;
         tok "like" " " "like" "like" "VB" "VERB" "ROOT" false 2;
         tok "to" " " "to" "to" "TO" "PART" "aux" false 4;
         tok "go" "" "go" "go" "VB" "VERB" "xcomp" false 2;
         tok "." "" "." "." "." "PUNCT" "punct" false 2 ];
     noun_chunks := [ {| chunk_text := py "I"; chunk_root := tok_I |} ] |}.

(** A wh-question whose tokens carry no "ROOT" label: "Why not?" with the
    labels of a parse that attaches both words elsewhere. *)
Definition why_not : Sentence :=
  {| tokens :=
       [ tok "Why" " " "why" "why" "WRB" "SCONJ" "advmod" true 1;
         tok "not" "" "not" "not" "RB" "PART" "neg" false 1;
         tok "?" "" "?" "?" "." "PUNCT" "punct" false 1 ];
     noun_chunks := [] |}.

Definition tok_sky := tok "sky" " " "sky" "sky" "NN" "NOUN" "nsubj" false 2.

(** "The sky is blue." *)
Definition the_sky_is_blue : Sentence :=
  {| tokens :=
       [ tok "The" " " "the" "the" "DT" "DET" "det" true 1;
         tok_sky;
         tok "is" " " "is" "be" "VBZ" "AUX" "ROOT" false 2;
         tok "blue" "" "blue" "blue" "JJ" "ADJ" "acomp" false 2;
         tok "." "" "." "." "." "PUNCT" "punct" false 2 ];
     noun_chunks := [ {| chunk_text := py "The sky"; chunk_root := tok_sky |} ] |}.

(** Tables with nothing outside ASCII, for the examples, which are ASCII. *)
Definition ascii_only_word : char -> bool := fun _ => false.
Definition ascii_only_lower : text -> text := fun s => s.

Section ChatBot.

(** The two Unicode tables the code relies on outside ASCII: which code points
    are word characters for [\w] and [\b], and [str.lower] on a text that is
    not pure ASCII. *)
Variable uni_word : char -> bool.
Variable uni_lower : text -> text.

Definition is_word (c : char) : bool :=
  if is_ascii c then ascii_word c else uni_word c.

(** [s.lower()] *)
Definition lower (s : text) : text :=
  if forallb is_ascii s then map ascii_lower s else uni_lower s.

(** ** Matching [\b(a1|...|an)\b] ([re], as used at lines 99 and 114) *)

(** Is the first character of [s] a word character (false at the end)? *)
Definition word_at (s : text) : bool :=
  match s with
  | c :: _ => is_word c
  | [] => false
  end.

(** [\b] between a character of class [prevw] (false at the start of the text)
    and the rest [s]. *)
Definition boundary (prevw : bool) (s : text) : bool := xorb prevw (word_at s).

(** The class of the last character read once [k] has been consumed. *)
Definition last_word (prevw : bool) (k : text) : bool :=
  fold_left (fun _ c => is_word c) k prevw.

(** Alternative [k] matches at the current position and [\b] holds after it. *)
Definition alt_matches (prevw : bool) (s : text) (k : text) : bool :=
  startswith k s && boundary (last_word prevw k) (skipn (length k) s).

(** The match of the pattern that starts exactly here, if any: [\b] holds and
    the first alternative, in order, that lets the rest of the pattern match. *)
Definition match_here (p : WordAlt) (prevw : bool) (s : text) : option text :=
  if boundary prevw s then find (alt_matches prevw s) (alts p) else None.

(** One pass over the text, left to right: at a position outside a match the
    pattern is tried; a match of length n consumes n characters ([skip] counts
    the ones still to consume). *)
Fixpoint scan (p : WordAlt) (prevw : bool) (s : text) (skip : nat) : list piece :=
  match s with
  | [] => []
  | c :: rest =>
      match skip with
      | S k => scan p (is_word c) rest k
      | O =>
          match match_here p prevw s with
          | Some m => Hit m :: scan p (is_word c) rest (length m - 1)
          | None => Lit c :: scan p (is_word c) rest 0
          end
      end
  end.

(** [re.finditer(p, s)]: the matched substrings in order. *)
Definition finditer (p : WordAlt) (s : text) : list text :=
  flat_map (fun x => match x with Hit m => [m] | Lit _ => [] end) (scan p false s 0).

(** [re.sub(p, repl, s)] with a function [repl]; a result [None] of [repl]
    contributes nothing to the output. *)
Definition re_sub (p : WordAlt) (repl : text -> option text) (s : text) : text :=
  flat_map (fun x =>
              match x with
              | Lit c => [c]
              | Hit m => match repl m with Some v => v | None => [] end
              end) (scan p false s 0).

(** [re.sub(povs_c, lambda match: povs.get(match.group()), s)], the expression
    every handler applies. *)
Definition transform (s : text) : text := re_sub povs_c (dict_get povs) s.

(** ** The handlers (lines 102-182)

    The parameter [nlp] is used by none of them and is left out. *)

(** [[sentence[i].text.lower() for i in verbs_idxs]] *)
Definition verb_texts (sentence : Sentence) (verbs_idxs : option (list nat))
  : M (list text) :=
  idxs <- iter verbs_idxs ;;
  mapM (fun i => t <- getitem sentence i ;; ret (lower (text_ t))) idxs.

Definition wh_question_handler (sentence : Sentence) (verbs_idxs : option (list nat))
  : M text :=
  first <- getitem sentence 0 ;;
  let reply := [lower (text_ first)] in
  let reply := append_first reply (chunks_with "nsubj" sentence) in
  verbs <- verb_texts sentence verbs_idxs ;;
  let reply := reply ++ [join (py " ") verbs] in
  let reply := append_first reply (chunks_with "dobj" sentence) in
  let reply := transform (join (py " ") reply) in
  prefix <- random_choice [py "I don't know "; py "I can't say "] ;;
  let reply := prefix ++ reply in
  suffix <- random_choice
    [ py ", but I'll try to find out for you. Please check in with me again later.";
      py ", but perhaps that's something I'd be able to find out for you. Remind me, if I forget.";
      py ". I'll see if I can find out, though. Ask me again sometime." ] ;;
  ret (reply ++ suffix).

Definition yn_question_handler (sentence : Sentence) (verbs_idxs : option (list nat))
  : M text :=
  let reply := append_first [] (chunks_with "nsubj" sentence) in
  verbs <- verb_texts sentence verbs_idxs ;;
  let reply := reply ++ [join (py " ") verbs] in
  let reply := append_first reply (chunks_with "dobj" sentence) in
  let reply := transform (join (py " ") reply) in
  prefix <- random_choice [py "I don't know whether "; py "I can't say if "] ;;
  let reply := prefix ++ reply in
  suffix <- random_choice
    [ py " at this very moment. Let me find out.";
      py ". I may have to think about this some more." ] ;;
  ret (reply ++ suffix).

Definition wish_handler (sentence : Sentence) (verbs_idxs : option (list nat))
  : M text :=
  let reply := span_text (tokens sentence) in
  let reply := transform reply in
  prefix <- random_choice [py "Understood: "; py "Got it: "] ;;
  let reply := prefix ++ reply in
  suffix <- random_choice [py " I'll see what I can do."; py ""] ;;
  ret (reply ++ suffix).

Definition instruction_handler (sentence : Sentence) (verbs_idxs : option (list nat))
  : M text :=
  let reply := span_text (tokens sentence) in
  let reply := transform reply in
  prefix <- random_choice [py "Understood: "; py "Got it: "] ;;
  let reply := prefix ++ reply in
  suffix <- random_choice [py " What do you think about that?"; py " Thanks for sharing."] ;;
  ret (reply ++ suffix).

Definition generic_handler (sentence : Sentence) (verbs_idxs : option (list nat))
  : M text :=
  let reply := span_text (tokens sentence) in
  let reply := transform reply in
  ret reply.

(** The function a name stands for. *)
Definition handler_of (i : Intent) : Sentence -> option (list nat) -> M text :=
  match i with
  | WH_QUESTION => wh_question_handler
  | YN_QUESTION => yn_question_handler
  | WISH => wish_handler
  | INSTRUCTION => instruction_handler
  | GENERIC => generic_handler
  end.

(** The body of the loop of [banter] for one sentence: calling the [None] a
    fallen-through [SentenceTyper.__call__] returns is a [TypeError]. *)
Definition reply_to (sentence : Sentence) : M text :=
  let verbs_idxs := VerbFinder_call (tokens sentence) in
  match SentenceTyper_call (tokens sentence) with
  | Some h => handler_of h sentence verbs_idxs
  | None => raise TypeError
  end.

(** The loop of [banter] over [doc.sents]. *)
Fixpoint banter_loop (sents : list Sentence) (reply : text) : M text :=
  match sents with
  | [] => ret reply
  | sentence :: rest => r <- reply_to sentence ;; banter_loop rest (reply ++ r)
  end.

(** [banter] (lines 185-197): the replies of the sentences, concatenated. *)
Definition banter (sents : list Sentence) : M text := banter_loop sents [].

(** ** Notions the properties are stated with *)


(** The label of the first of a list of matches, as [SentenceTyper.__call__]
    reads it. *)
Definition first_label (ms : list MatchC) : option Intent :=
  match ms with
  | (match_id, _, _) :: _ =>
      if String.eqb match_id "WH-QUESTION" then Some WH_QUESTION
      else if String.eqb match_id "YN-QUESTION" then Some YN_QUESTION
      else if String.eqb match_id "WISH" then Some WISH
      else if String.eqb match_id "INSTRUCTION" then Some INSTRUCTION
      else None
  | [] => Some GENERIC
  end.


(** Token [r] carries the label "ROOT". *)
Definition is_root (toks : list Token) (r : nat) : Prop :=
  exists t, nth_error toks r = Some t /\ dep_ t = "ROOT".

(** Token [c] is a direct child of token [r]. *)
Definition child_of (toks : list Token) (r c : nat) : Prop :=
  exists t, nth_error toks c = Some t /\ head t = r /\ c <> r.

Definition has_tag (toks : list Token) (tag : string) (c : nat) : Prop :=
  exists t, nth_error toks c = Some t /\ tag_ t = tag.

Definition has_pos (toks : list Token) (pos : string) (c : nat) : Prop :=
  exists t, nth_error toks c = Some t /\ pos_ t = pos.

(** Shape a at root [r]: a child tagged "VB" and a child tagged "MD". *)
Definition modal_chain_at (toks : list Token) (r : nat) : Prop :=
  is_root toks r
  /\ (exists v, child_of toks r v /\ has_tag toks "VB" v)
  /\ (exists m, child_of toks r m /\ has_tag toks "MD" m).

(** Shape b at root [r]: a child whose part of speech is "AUX". *)
Definition auxiliary_at (toks : list Token) (r : nat) : Prop :=
  is_root toks r /\ exists a, child_of toks r a /\ has_pos toks "AUX" a.

(** Token [r] is the root of the sentence: the one token labelled "ROOT", and
    its own head. *)
Definition the_root (toks : list Token) (r : nat) : Prop :=
  (exists t, nth_error toks r = Some t /\ dep_ t = "ROOT" /\ head t = r)
  /\ forall r', is_root toks r' -> r' = r.

(** [n] is the lowest index with property [P]. *)
Definition lowest (P : nat -> Prop) (n : nat) : Prop :=
  P n /\ forall n', n' < n -> ~ P n'.

(** Strictly ascending. *)
Definition ascending (l : list nat) : Prop := StronglySorted lt l.

(** The matcher loop when no new match can start: only the states already
    alive read the tokens. *)
Fixpoint drain (toks : list Token) (states : list PatternState) : list MatchC :=
  match toks with
  | [] => []
  | t :: toks' => emitted states t ++ drain toks' (survivors states t)
  end.

(** The fresh states pushed at token [i]. *)
Definition fresh (patterns : list (string * Pattern)) (i : nat) : list PatternState :=
  map (fun kp => {| st_key := fst kp; st_rest := snd kp;
                    st_start := i; st_length := 0 |}) patterns.

(** Key [k] is a longer alternative than [x] that [x] would cut short: [x] is a
    proper prefix of [k] and a non-word character follows it in [k]. *)
Definition shadows (x k : text) : bool :=
  startswith x k && Nat.ltb (length x) (length k)
  && negb (word_at (skipn (length x) k)).

(** No alternative comes before a longer one that it would cut short. *)
Fixpoint longest_first (l : list text) : bool :=
  match l with
  | [] => true
  | x :: l' => forallb (fun k => negb (shadows x k)) l' && longest_first l'
  end.

(** ** Notions for the replies *)

(** Some token of the sentence carries the label "ROOT". *)
Definition has_root (toks : list Token) : bool :=
  existsb (fun t => String.eqb (dep_ t) "ROOT") toks.

(** The sentences [reply_to] can answer: those with a root, and those that are
    not given one of the two question handlers. *)
Definition answerable (s : Sentence) : bool :=
  has_root (tokens s)
  || match SentenceTyper_call (tokens s) with
     | Some WISH | Some INSTRUCTION | Some GENERIC => true
     | _ => false
     end.

(** The first characters of the keys of the lexicon: "I", "y" and "m". *)
Definition key_initials : list char := [73%N; 121%N; 109%N].

(** The characters of the keys that are not word characters: the blank and
    the apostrophe. *)
Definition key_joiners : list char := [32%N; 39%N].

(** ** The conversation ([start], [cancel], [help], [main], lines 185-233)

    The annotator, [nlp(text).sents]: the sentences spaCy makes of a text. *)
Variable nlp : text -> list Sentence.

(** An incoming message: its text and, if it starts with a command
    ("/start ...", "/start@name ..."), the command as it was typed and whether
    it is meant for this bot: it carries no "@name", or the name of this bot
    in any letter case. *)
Record Update := { msg_text : text; command : option (text * bool) }.

(** What a callback returns: [None], a state, or [ConversationHandler.END]. *)
Inductive Returned := Unchanged | State (s : string) | END.

(** A callback answers with [update.message.reply_text] at its end and
    returns. *)
Definition Callback := Update -> M (text * Returned).

Record Handler := { check_update : Update -> bool; callback : Callback }.

(** The update is one of the commands, in any letter case, and is meant for
    this bot: the handler keeps its commands in lower case and compares the
    lower-cased command of the update with them. *)
Definition is_command (commands : list text) (u : Update) : bool :=
  match command u with
  | Some (c, for_this_bot) =>
      existsb (text_eqb (lower c)) (map lower commands) && for_this_bot
  | None => false
  end.

(** [CommandHandler(commands, callback)] *)
Definition CommandHandler (commands : list text) (cb : Callback) : Handler :=
  {| check_update := is_command commands; callback := cb |}.

(** [MessageHandler(Filters.text & ~Filters.command, callback)] *)
Definition MessageHandler_text_not_command (cb : Callback) : Handler :=
  {| check_update := fun u => match command u with
                              | Some _ => false
                              | None => true
                              end;
     callback := cb |}.

(** [start] (lines 200-203) *)
Definition start : Callback :=
  fun _ => ret (py "Hi! I am your bot. How may I be of service?", State "BANTER").

(** [cancel] (lines 206-209) *)
Definition cancel : Callback :=
  fun _ => ret (py "Thanks for the chat. I'll be off then!", END).

(** [help] (lines 212-215) *)
Definition help : Callback :=
  fun _ => ret (py "I strongly suggest that you read the manual.", Unchanged).

(** [banter(update, context)] (lines 185-197): the text is annotated, the
    reply to its sentences is sent, and the function returns [None]. *)
Definition banter_update : Callback :=
  fun u => reply <- banter (nlp (msg_text u)) ;; ret (reply, Unchanged).

Record ConversationHandler := {
  entry_points : list Handler;
  states : list (string * list Handler);
  fallbacks : list Handler
}.

(** [conv_handler] of [main] (lines 222-230) *)
Definition conv_handler : ConversationHandler :=
  {| entry_points := [CommandHandler [py "start"; py "order"] start];
     states := [("BANTER", [MessageHandler_text_not_command banter_update])];
     fallbacks := [CommandHandler [py "cancel"; py "stop"; py "exit"] cancel;
                   CommandHandler [py "help"] help] |}.

(** [states.get(state) or []] *)
Fixpoint states_get (d : list (string * list Handler)) (state : string) : list Handler :=
  match d with
  | [] => []
  | (k, hs) :: d' => if String.eqb k state then hs else states_get d' state
  end.

(** The handler of a conversation for an update: outside a conversation the
    first entry point that accepts it; inside, the first handler of the state
    that accepts it, and else the first fallback that does. *)
Definition select (ch : ConversationHandler) (state : option string) (u : Update)
  : option Handler :=
  match state with
  | None => find (fun h => check_update h u) (entry_points ch)
  | Some st =>
      match find (fun h => check_update h u) (states_get (states ch) st) with
      | Some h => Some h
      | None => find (fun h => check_update h u) (fallbacks ch)
      end
  end.

Definition update_state (state : option string) (r : Returned) : option string :=
  match r with
  | Unchanged => state
  | State s => Some s
  | END => None
  end.

(** One update: the state of the conversation afterwards and the reply sent,
    if any.  An exception of the callback is caught by the dispatcher: nothing
    is sent and the state stays. *)
Definition handle_update (ch : ConversationHandler) (state : option string)
           (u : Update) (tape : list nat) : (option string * option text) * list nat :=
  match select ch state u with
  | None => ((state, None), tape)
  | Some h =>
      match callback h u tape with
      | (Ok (reply, r), tape') => ((update_state state r, Some reply), tape')
      | (Raise _, tape') => ((state, None), tape')
      end
  end.




(** * Properties *)

(** ** Texts and the lexicon *)

Lemma text_eqb_eq (a b : text) : text_eqb a b = true <-> a = b.
Proof.
  revert b; induction a as [|x a IH]; intros [|y b]; simpl; split;
    try congruence; try reflexivity.
  - intros H. apply andb_true_iff in H as [Hx Hab].
    apply N.eqb_eq in Hx. apply IH in Hab. congruence.
  - intros H. injection H as -> ->.
    rewrite N.eqb_refl. simpl. apply IH. reflexivity.
Qed.

Lemma startswith_split (k s : text) :
  startswith k s = true -> s = k ++ skipn (length k) s.
Proof.
  revert s; induction k as [|x k IH]; intros [|y s]; simpl; try congruence.
  intros H. apply andb_true_iff in H as [Hx Hk].
  apply N.eqb_eq in Hx. subst y. f_equal. apply IH, Hk.
Qed.


Lemma dict_get_In (d : list (text * text)) (k v : text) :
  dict_get d k = Some v -> In (k, v) d.
Proof.
  induction d as [|[k' v'] d IH]; simpl; [discriminate|].
  destruct (text_eqb k' k) eqn:E.
  - intros H. injection H as ->. apply text_eqb_eq in E. subst. now left.
  - intros H. right. apply IH, H.
Qed.

(** Every key of the lexicon is found by [povs.get]. *)
Lemma povs_keys_get :
  Forall (fun k => exists v, dict_get povs k = Some v /\ In (k, v) povs)
         (map fst povs).
Proof.
  assert (H : forall k, In k (map fst povs) -> dict_get povs k <> None).
  { intros k Hk. simpl in Hk.
    repeat (destruct Hk as [Hk|Hk]; [subst k; vm_compute; discriminate|]).
    destruct Hk. }
  apply Forall_forall. intros k Hk. specialize (H k Hk).
  destruct (dict_get povs k) as [v|] eqn:E; [|congruence].
  exists v. split; [reflexivity|]. apply dict_get_In, E.
Qed.

(** ** The pattern [povs_c] *)

Lemma word_at_prefix (k s : text) :
  k <> [] -> startswith k s = true -> word_at s = word_at k.
Proof.
  destruct k as [|x k]; [congruence|]. intros _.
  destruct s as [|y s]; simpl; [discriminate|].
  intros H. apply andb_true_iff in H as [Hx _].
  apply N.eqb_eq in Hx. now subst.
Qed.

(** Every key begins with a word character and ends with one. *)
Lemma povs_keys_shape :
  Forall (fun k => k <> [] /\ word_at k = true /\ forall b, last_word b k = true)
         (alts povs_c).
Proof.
  simpl.
  repeat (constructor;
          [split; [discriminate | split; [reflexivity | intros b; reflexivity]] |]).
  constructor.
Qed.

(** A match of [povs_c] is a key that is a prefix of the rest of the text, it
    begins after a non-word character (or at the start) and a non-word
    character (or the end) follows it. *)
Lemma match_here_whole_word (prevw : bool) (s m : text) :
  match_here povs_c prevw s = Some m ->
  In m (alts povs_c) /\ prevw = false /\
  exists rest, s = m ++ rest /\ word_at rest = false.
Proof.
  unfold match_here. destruct (boundary prevw s) eqn:B; [|discriminate].
  intros F. apply find_some in F as [Hin Hm]. split; [exact Hin|].
  pose proof povs_keys_shape as Sh. rewrite Forall_forall in Sh.
  destruct (Sh m Hin) as (Hne & Hfirst & Hlast).
  unfold alt_matches in Hm. apply andb_true_iff in Hm as [Hpre Hb].
  rewrite Hlast in Hb. unfold boundary in B, Hb.
  rewrite (word_at_prefix m s Hne Hpre), Hfirst in B.
  split; [destruct prevw; [discriminate | reflexivity]|].
  exists (skipn (length m) s). split; [apply startswith_split, Hpre|].
  destruct (word_at (skipn (length m) s)); [discriminate | reflexivity].
Qed.

Lemma scan_hits (p : WordAlt) (P : text -> Prop) :
  (forall prevw s m, match_here p prevw s = Some m -> P m) ->
  forall s prevw skip,
    Forall (fun x => match x with Hit m => P m | Lit _ => True end)
           (scan p prevw s skip).
Proof.
  intros HP. induction s as [|c rest IH]; intros prevw skip; simpl; [constructor|].
  destruct skip as [|k]; [|apply IH].
  destruct (match_here p prevw (c :: rest)) as [m|] eqn:E.
  - constructor; [exact (HP _ _ _ E) | apply IH].
  - constructor; [exact I | apply IH].
Qed.

(** C9: every substring the scan of [povs_c] matches is a key of [povs], so
    the lookup [povs.get] of the replacement function finds a value for it:
    whatever a missing key would contribute, the result of the substitution,
    a total function of the text, is the same. *)
Theorem povs_lookup_never_missing (s : text) :
  Forall (fun m => In m (map fst povs) /\
                   exists v, dict_get povs m = Some v /\ In (m, v) povs)
         (finditer povs_c s)
  /\ forall missing : text -> option text,
       transform s =
       re_sub povs_c (fun m => match dict_get povs m with
                               | Some v => Some v
                               | None => missing m
                               end) s.
Proof.
  assert (K : forall prevw s' m, match_here povs_c prevw s' = Some m ->
              In m (map fst povs) /\
              exists v, dict_get povs m = Some v /\ In (m, v) povs).
  { intros prevw s' m Hm.
    destruct (match_here_whole_word prevw s' m Hm) as [Hin _].
    split; [exact Hin|].
    pose proof povs_keys_get as G. rewrite Forall_forall in G. exact (G m Hin). }
  pose proof (scan_hits povs_c _ K s false 0) as H.
  split.
  - unfold finditer. apply Forall_flat_map.
    eapply Forall_impl; [|exact H].
    intros [c|m] Hx; [constructor | constructor; [exact Hx | constructor]].
  - intros missing. unfold transform, re_sub.
    remember (scan povs_c false s 0) as l eqn:El. clear El.
    induction H as [|x l Hx _ IH]; [reflexivity|].
    cbn [flat_map]. f_equal; [|exact IH].
    destruct x as [c|m]; [reflexivity|].
    destruct Hx as [_ (v & Hv & _)]. rewrite Hv. reflexivity.
Qed.

Lemma startswith_both (x k s : text) :
  startswith x s = true -> startswith k s = true -> length x < length k ->
  startswith x k = true /\ skipn (length x) s = skipn (length x) k ++ skipn (length k) s.
Proof.
  revert k s; induction x as [|a x IH]; intros k s Hx Hk Hlen.
  - simpl. split; [reflexivity|]. apply startswith_split, Hk.
  - destruct k as [|b k]; [simpl in Hlen; lia|].
    destruct s as [|c s]; [discriminate|].
    simpl in Hx, Hk. apply andb_true_iff in Hx as [Ha Hx], Hk as [Hb Hk].
    apply N.eqb_eq in Ha, Hb. subst a b. simpl in Hlen.
    destruct (IH k s Hx Hk ltac:(lia)) as [H1 H2].
    simpl. rewrite N.eqb_refl. split; [exact H1 | exact H2].
Qed.

Lemma word_at_app (a b : text) : a <> [] -> word_at (a ++ b) = word_at a.
Proof. destruct a; [congruence | reflexivity]. Qed.

(** With the alternatives in an order that is [longest_first], the first
    alternative that matches at a position is a longest one. *)
Lemma find_longest (prevw : bool) (s : text) (l : list text) :
  longest_first l = true ->
  Forall (fun k => forall b, last_word b k = true) l ->
  forall m, find (alt_matches prevw s) l = Some m ->
  forall k, In k l -> alt_matches prevw s k = true -> length k <= length m.
Proof.
  induction l as [|x l IH]; intros Hord Hlast m Hfind k Hin Hk; [destruct Hin|].
  simpl in Hord. apply andb_true_iff in Hord as [Hx Hord].
  inversion Hlast as [|? ? Hlx Hlast']; subst.
  simpl in Hfind. destruct (alt_matches prevw s x) eqn:Ex.
  - injection Hfind as <-. destruct Hin as [<-|Hin]; [lia|].
    destruct (Nat.le_gt_cases (length k) (length x)) as [Hle|Hgt]; [exact Hle|].
    exfalso. rewrite forallb_forall in Hx. specialize (Hx k Hin).
    unfold alt_matches in Ex, Hk.
    apply andb_true_iff in Ex as [Px Bx], Hk as [Pk _].
    destruct (startswith_both x k s Px Pk Hgt) as [Pxk Hskip].
    rewrite Hlx in Bx. unfold boundary in Bx. rewrite Hskip in Bx.
    assert (Hne : skipn (length x) k <> []).
    { intros E. apply (f_equal (@length _)) in E.
      rewrite length_skipn in E. simpl in E. lia. }
    rewrite (word_at_app _ _ Hne) in Bx.
    unfold shadows in Hx. rewrite Pxk in Hx.
    apply Nat.ltb_lt in Hgt. rewrite Hgt in Hx. simpl in Hx.
    destruct (word_at (skipn (length x) k)); simpl in *; discriminate.
  - destruct Hin as [<-|Hin]; [congruence|].
    exact (IH Hord Hlast' m Hfind k Hin Hk).
Qed.

(** C5: [transform] maps every key of the lexicon, given alone, to its value;
    "I am" becomes "you are"; and at every position the alternative the
    pattern takes is a longest key that matches there, the text being scanned
    once from left to right. *)
Theorem transform_lexicon_keys :
  (forall k v, In (k, v) povs -> transform k = v)
  /\ transform (py "I am") = py "you are"
  /\ (forall prevw s m, match_here povs_c prevw s = Some m ->
        forall k, In k (alts povs_c) -> alt_matches prevw s k = true ->
                  length k <= length m).
Proof.
  split; [|split].
  - intros k v H. simpl in H.
    repeat (destruct H as [H|H]; [injection H as <- <-; vm_compute; reflexivity|]).
    destruct H.
  - vm_compute. reflexivity.
  - intros prevw s m H k Hin Hk. unfold match_here in H.
    destruct (boundary prevw s); [|discriminate].
    refine (find_longest prevw s (alts povs_c) _ _ m H k Hin Hk).
    + vm_compute. reflexivity.
    + eapply Forall_impl; [|exact povs_keys_shape]. intros a (_ & _ & Ha). exact Ha.
Qed.



Lemma flat_map_Lit (f : text -> text) (s : text) :
  flat_map (fun x => match x with Lit c => [c] | Hit m => f m end) (map Lit s) = s.
Proof. induction s as [|c s IH]; simpl; [reflexivity | now rewrite IH]. Qed.



(** ** The sentence typer *)

Lemma unseen_head (ms : list MatchC) : first_label (unseen [] ms) = first_label ms.
Proof. destruct ms as [|[[k a] b] ms]; reflexivity. Qed.

Lemma SentenceTyper_call_first (toks : list Token) :
  SentenceTyper_call toks = first_label (find_loop SentenceTyper 0 toks []).
Proof. unfold SentenceTyper_call, Matcher_call. rewrite <- unseen_head. reflexivity. Qed.

Lemma starts_false (tp : TokenPattern) (t : Token) :
  is_sent_start t = false ->
  token_matches ((IS_SENT_START, Flag true) :: tp) t = false.
Proof. intros H. unfold token_matches. simpl. rewrite H. reflexivity. Qed.

(** A token that does not start a sentence starts no match. *)
Lemma fresh_rejected (i : nat) (t : Token) :
  is_sent_start t = false ->
  emitted (fresh SentenceTyper i) t = [] /\ survivors (fresh SentenceTyper i) t = [].
Proof.
  intros H. unfold emitted, survivors, get_action.
  cbn -[token_matches]. rewrite !(starts_false _ _ H). split; reflexivity.
Qed.

Lemma find_loop_drain (toks : list Token) :
  Forall (fun t => is_sent_start t = false) toks ->
  forall i states, find_loop SentenceTyper i toks states = drain toks states.
Proof.
  induction 1 as [|t toks Ht _ IH]; intros i states; [reflexivity|].
  cbn [find_loop drain]. fold (fresh SentenceTyper i).
  destruct (fresh_rejected i t Ht) as [He Hs].
  unfold emitted, survivors in *. rewrite !flat_map_app, He, Hs, !app_nil_r.
  f_equal. apply IH.
Qed.

Lemma drain_nil (toks : list Token) : drain toks [] = [].
Proof. induction toks as [|t toks IH]; simpl; [reflexivity | exact IH]. Qed.

(** Case analysis on every token test left in the goal. *)
Ltac split_atoms :=
  repeat (match goal with
          | |- context [token_matches ?p ?t] => destruct (token_matches p t)
          end; cbn -[token_matches]);
  rewrite ?drain_nil; reflexivity.


(** The keys of the matches come from the patterns. *)
Lemma find_loop_keys (patterns : list (string * Pattern)) (toks : list Token) :
  forall i states,
    Forall (fun st => In (st_key st) (map fst patterns)) states ->
    Forall (fun m : MatchC => In (fst (fst m)) (map fst patterns))
           (find_loop patterns i toks states).
Proof.
  induction toks as [|t toks IH]; intros i states Hst; [constructor|].
  cbn [find_loop].
  assert (Hall : Forall (fun st => In (st_key st) (map fst patterns))
                        (states ++ fresh patterns i)).
  { apply Forall_app. split; [exact Hst|].
    unfold fresh. apply Forall_forall. intros st Hin.
    apply in_map_iff in Hin as (kp & <- & Hkp). simpl.
    apply in_map, Hkp. }
  fold (fresh patterns i). apply Forall_app. split.
  - unfold emitted. apply Forall_flat_map.
    eapply Forall_impl; [|exact Hall]. intros st Hk.
    destruct (get_action st t); repeat constructor. exact Hk.
  - apply IH. unfold survivors. apply Forall_flat_map.
    eapply Forall_impl; [|exact Hall]. intros st Hk.
    destruct (get_action st t); repeat constructor. exact Hk.
Qed.

(** C4: for every sentence the sentence typer returns one of the five
    handlers and never falls through to [None]; for the sentence without
    tokens it returns the generic handler, whose reply is the empty text. *)
Theorem SentenceTyper_total :
  (forall toks, exists h, SentenceTyper_call toks = Some h)
  /\ SentenceTyper_call [] = Some GENERIC
  /\ (forall chunks verbs_idxs tape,
        generic_handler {| tokens := []; noun_chunks := chunks |} verbs_idxs tape
        = (Ok [], tape))
  /\ (forall chunks tape,
        reply_to {| tokens := []; noun_chunks := chunks |} tape = (Ok [], tape)).
Proof.
  split; [|split; [reflexivity | split; intros; reflexivity]].
  intros toks. rewrite SentenceTyper_call_first.
  pose proof (find_loop_keys SentenceTyper toks 0 [] (Forall_nil _)) as H.
  destruct (find_loop SentenceTyper 0 toks []) as [|[[k a] b] ms].
  - exists GENERIC. reflexivity.
  - inversion H as [|? ? Hk _]; subst. simpl in Hk.
    repeat (destruct Hk as [<-|Hk]; [eexists; reflexivity|]). destruct Hk.
Qed.

(** ** The verb finder *)

Lemma candidates_spec (tp : TokenPattern) (toks : list Token) (i : nat) :
  In i (candidates tp toks) <->
  exists t, nth_error toks i = Some t /\ token_matches tp t = true.
Proof.
  unfold candidates. rewrite filter_In, in_seq. split.
  - intros [_ H]. destruct (nth_error toks i) as [t|]; [|discriminate].
    exists t. split; [reflexivity | exact H].
  - intros (t & Ht & Hm). split.
    + assert (i < length toks) by (apply nth_error_Some; congruence). lia.
    + rewrite Ht. exact Hm.
Qed.

Lemma children_spec (toks : list Token) (r c : nat) :
  In c (children toks r) <-> child_of toks r c.
Proof.
  unfold children, child_of. rewrite filter_In, in_seq. split.
  - intros [_ H]. destruct (nth_error toks c) as [t|]; [|discriminate].
    apply andb_true_iff in H as [Hh Hc]. apply Nat.eqb_eq in Hh.
    apply negb_true_iff, Nat.eqb_neq in Hc. exists t. auto.
  - intros (t & Ht & Hh & Hc). split.
    + assert (c < length toks) by (apply nth_error_Some; congruence). lia.
    + rewrite Ht. apply andb_true_iff. split; [apply Nat.eqb_eq, Hh|].
      apply negb_true_iff, Nat.eqb_neq, Hc.
Qed.

Lemma related_spec (toks : list Token) (r c : nat) :
  related toks ImmediateHead r c = true <-> child_of toks r c.
Proof.
  unfold related. rewrite existsb_exists, <- children_spec. split.
  - intros (x & Hx & E). apply Nat.eqb_eq in E. now subst.
  - intros H. exists c. split; [exact H | apply Nat.eqb_refl].
Qed.

Lemma tag_candidates (toks : list Token) (tag : string) (c : nat) :
  In c (candidates [(TAG, Is tag)] toks) <-> has_tag toks tag c.
Proof.
  rewrite candidates_spec. unfold has_tag, token_matches. simpl.
  split; intros (t & Ht & H); exists t; (split; [exact Ht|]).
  - rewrite andb_true_r in H. apply String.eqb_eq, H.
  - rewrite andb_true_r. apply String.eqb_eq, H.
Qed.

Lemma root_candidates (toks : list Token) (r : nat) :
  In r (candidates (RIGHT_ATTRS root_node) toks) <-> is_root toks r.
Proof.
  rewrite candidates_spec. unfold is_root, token_matches. simpl.
  split; intros (t & Ht & H); exists t; (split; [exact Ht|]).
  - rewrite andb_true_r in H. apply String.eqb_eq, H.
  - rewrite andb_true_r. apply String.eqb_eq, H.
Qed.

(** An element of a product takes its components from the lists. *)
Lemma in_product (ls : list (list nat)) (x : list nat) :
  In x (product ls) -> Forall2 (fun xi l => In xi l) x ls.
Proof.
  revert x; induction ls as [|l ls IH]; intros x; simpl.
  - intros [<-|[]]. constructor.
  - intros H. apply in_flat_map in H as (a & Ha & Hx).
    apply in_map_iff in Hx as (y & <- & Hy). constructor; [exact Ha | apply IH, Hy].
Qed.

Lemma tree_candidates_spec (tp : TokenPattern) (toks : list Token) (g i : nat) :
  In i (tree_candidates tp toks g) <->
  In i (candidates tp toks) /\ tree_root toks i = g.
Proof.
  unfold tree_candidates. rewrite filter_In, Nat.eqb_eq. reflexivity.
Qed.

(** What a match of each of the three patterns looks like. *)
Lemma VerbFinder_match_shape (toks : list Token) (k : string) (idxs : list nat) :
  In (k, idxs) (DependencyMatcher_call VerbFinder toks) ->
  (exists r v m, idxs = [r; v; m] /\ is_root toks r
                 /\ child_of toks r v /\ has_tag toks "VB" v
                 /\ child_of toks r m /\ has_tag toks "MD" m)
  \/ (exists r a, idxs = [r; a] /\ is_root toks r /\ child_of toks r a)
  \/ (exists r, idxs = [r] /\ is_root toks r).
Proof.
  unfold DependencyMatcher_call. intros H.
  apply in_flat_map in H as (kp & Hkp & H).
  apply in_flat_map in H as (g & _ & H).
  apply in_map_iff in H as (x & E & H). injection E as _ <-.
  unfold dep_matches in H. apply filter_In in H as [Hp Hv].
  apply in_product in Hp.
  unfold VerbFinder in Hkp. cbn [map] in Hkp.
  destruct Hkp as [<-|[<-|[<-|[]]]];
    cbn [snd map shape_a shape_b shape_c] in Hp.
  - left. inversion Hp as [|r ? l1 ? Hr Hp1]; subst.
    inversion Hp1 as [|v ? l2 ? Hv' Hp2]; subst.
    inversion Hp2 as [|m ? l3 ? Hm Hp3]; subst. inversion Hp3; subst.
    exists r, v, m. cbn in Hv. rewrite !andb_true_r in Hv.
    apply andb_true_iff in Hv as [Hv1 Hv2].
    apply related_spec in Hv1, Hv2.
    apply tree_candidates_spec in Hr as [Hr _], Hv' as [Hv' _], Hm as [Hm _].
    apply root_candidates in Hr.
    apply tag_candidates in Hv', Hm. auto 10.
  - right. left. inversion Hp as [|r ? l1 ? Hr Hp1]; subst.
    inversion Hp1 as [|a ? l2 ? Ha Hp2]; subst. inversion Hp2; subst.
    exists r, a. cbn in Hv. rewrite !andb_true_r in Hv.
    apply related_spec in Hv.
    apply tree_candidates_spec in Hr as [Hr _].
    apply root_candidates in Hr. auto.
  - right. right. inversion Hp as [|r ? l1 ? Hr Hp1]; subst. inversion Hp1; subst.
    exists r. apply tree_candidates_spec in Hr as [Hr _].
    apply root_candidates in Hr. auto.
Qed.

Lemma insert_sorted_In (x y : nat) (l : list nat) :
  In y (insert_sorted x l) <-> y = x \/ In y l.
Proof.
  induction l as [|z l IH]; simpl; [intuition|].
  destruct (Nat.leb x z); simpl; [intuition|]. rewrite IH. intuition.
Qed.

Lemma insert_sorted_ascending (x : nat) (l : list nat) :
  ascending l -> ~ In x l -> ascending (insert_sorted x l).
Proof.
  unfold ascending. induction 1 as [|z l Hl IH Hz]; intros Hx; simpl.
  - repeat constructor.
  - destruct (Nat.leb x z) eqn:E.
    + apply Nat.leb_le in E.
      assert (x < z) by (assert (x <> z) by (intros ->; apply Hx; now left); lia).
      constructor; [constructor; assumption|].
      constructor; [assumption|].
      rewrite Forall_forall in *. intros y Hy. specialize (Hz y Hy). lia.
    + apply Nat.leb_gt in E. constructor.
      * apply IH. intros Hin. apply Hx. now right.
      * rewrite Forall_forall in *. intros y Hy.
        apply insert_sorted_In in Hy as [->|Hy]; [exact E | exact (Hz y Hy)].
Qed.

Lemma sorted_In (l : list nat) (y : nat) : In y (sorted l) <-> In y l.
Proof.
  induction l as [|x l IH]; simpl; [tauto|].
  rewrite insert_sorted_In, IH. intuition.
Qed.

Lemma sorted_ascending (l : list nat) : NoDup l -> ascending (sorted l).
Proof.
  induction 1 as [|x l Hx _ IH]; simpl; [constructor|].
  apply insert_sorted_ascending; [exact IH|]. now rewrite sorted_In.
Qed.

Lemma ascending_NoDup (l : list nat) : ascending l -> NoDup l.
Proof.
  induction 1 as [|x l _ IH Hx]; constructor; [|exact IH].
  intros Hin. rewrite Forall_forall in Hx. specialize (Hx x Hin). lia.
Qed.

(** C7: whenever the verb finder returns indices, they are strictly ascending
    and no index occurs twice. *)
Theorem VerbFinder_ascending (toks : list Token) (idxs : list nat) :
  VerbFinder_call toks = Some idxs -> ascending idxs /\ NoDup idxs.
Proof.
  unfold VerbFinder_call.
  destruct (DependencyMatcher_call VerbFinder toks) as [|[k m] ms] eqn:E;
    [discriminate|].
  intros H. injection H as <-.
  assert (Hin : In (k, m) (DependencyMatcher_call VerbFinder toks))
    by (rewrite E; now left).
  assert (Hnd : NoDup m).
  { apply VerbFinder_match_shape in Hin
      as [(r & v & x & -> & _ & Cv & Tv & Cx & Tx)|[(r & a & -> & _ & Ca)|(r & -> & _)]].
    - destruct Cv as (tv & Hv & _ & Nv), Cx as (tx & Hx & _ & Nx).
      destruct Tv as (tv' & Hv' & Ev), Tx as (tx' & Hx' & Ex).
      assert (v <> x).
      { intros ->. rewrite Hv' in Hx'. injection Hx' as ->.
        rewrite Ev in Ex. discriminate. }
      repeat constructor; simpl; intuition congruence.
    - destruct Ca as (ta & _ & _ & Na).
      repeat constructor; simpl; intuition congruence.
    - repeat constructor; simpl; tauto. }
  split; [apply sorted_ascending, Hnd | apply ascending_NoDup, sorted_ascending, Hnd].
Qed.

Lemma pos_candidates (toks : list Token) (pos : string) (c : nat) :
  In c (candidates [(POS, Is pos)] toks) <-> has_pos toks pos c.
Proof.
  rewrite candidates_spec. unfold has_pos, token_matches. simpl.
  split; intros (t & Ht & H); exists t; (split; [exact Ht|]).
  - rewrite andb_true_r in H. apply String.eqb_eq, H.
  - rewrite andb_true_r. apply String.eqb_eq, H.
Qed.

(** The candidates are in ascending order: before a candidate there are only
    lower ones. *)
Lemma candidates_split (tp : TokenPattern) (toks : list Token) (x : nat) :
  In x (candidates tp toks) ->
  exists l1 l2, candidates tp toks = l1 ++ x :: l2
                /\ forall a, In a l1 -> a < x /\ In a (candidates tp toks).
Proof.
  unfold candidates. set (p := fun i => _). intros H.
  pose proof H as H'. apply filter_In in H' as [Hx Hp]. apply in_seq in Hx.
  assert (E : seq 0 (length toks)
              = seq 0 x ++ x :: seq (S x) (length toks - S x)).
  { replace (length toks) with (x + S (length toks - S x)) at 1 by lia.
    rewrite seq_app. reflexivity. }
  exists (filter p (seq 0 x)), (filter p (seq (S x) (length toks - S x))).
  split.
  - rewrite E at 1. rewrite filter_app. cbn [filter]. rewrite Hp. reflexivity.
  - intros a Ha. apply filter_In in Ha as [Ha Hpa]. apply in_seq in Ha.
    split; [lia|]. apply filter_In. split; [apply in_seq; lia | exact Hpa].
Qed.

Lemma find_app_first {A} (f : A -> bool) (l1 l2 : list A) :
  find f (l1 ++ l2) = match find f l1 with Some y => Some y | None => find f l2 end.
Proof.
  induction l1 as [|a l1 IH]; simpl; [reflexivity|].
  destruct (f a); [reflexivity | exact IH].
Qed.

Lemma find_all_false {A} (f : A -> bool) (l : list A) :
  (forall a, In a l -> f a = false) -> find f l = None.
Proof.
  induction l as [|a l IH]; intros H; simpl; [reflexivity|].
  rewrite (H a (or_introl eq_refl)). apply IH. intros b Hb. apply H. now right.
Qed.

Lemma find_map_cons (f : list nat -> bool) (x : nat) (l : list (list nat)) :
  find f (map (cons x) l) = option_map (cons x) (find (fun t => f (x :: t)) l).
Proof.
  induction l as [|a l IH]; simpl; [reflexivity|].
  destruct (f (x :: a)); [reflexivity | exact IH].
Qed.

Lemma hd_error_filter {A} (f : A -> bool) (l : list A) :
  hd_error (filter f l) = find f l.
Proof.
  induction l as [|a l IH]; simpl; [reflexivity|].
  destruct (f a); [reflexivity | exact IH].
Qed.

(** The first valid element of a product: the first component is the first
    one that admits a completion, completed by the first valid completion. *)
Lemma find_product_cons (f : list nat -> bool) (l l1 l2 : list nat)
      (ls : list (list nat)) (x : nat) (y : list nat) :
  l = l1 ++ x :: l2 ->
  (forall a, In a l1 -> forall t, In t (product ls) -> f (a :: t) = false) ->
  find (fun t => f (x :: t)) (product ls) = Some y ->
  find f (product (l :: ls)) = Some (x :: y).
Proof.
  intros -> Hbefore Hx. cbn [product].
  rewrite flat_map_app, find_app_first, find_all_false.
  - cbn [flat_map]. rewrite find_app_first, find_map_cons, Hx. reflexivity.
  - intros b Hb. apply in_flat_map in Hb as (a & Ha & Hb).
    apply in_map_iff in Hb as (t & <- & Ht). exact (Hbefore a Ha t Ht).
Qed.

Lemma VerbFinder_call_first (toks : list Token) :
  VerbFinder_call toks =
  option_map (fun km => sorted (snd km)) (hd_error (DependencyMatcher_call VerbFinder toks)).
Proof.
  unfold VerbFinder_call.
  destruct (DependencyMatcher_call VerbFinder toks) as [|[k m] ms]; reflexivity.
Qed.

Lemma filter_all_false {A} (f : A -> bool) (l : list A) :
  (forall a, In a l -> f a = false) -> filter f l = [].
Proof.
  induction l as [|a l IH]; intros H; simpl; [reflexivity|].
  rewrite (H a (or_introl eq_refl)). apply IH. intros b Hb. apply H. now right.
Qed.

Lemma flat_map_all_nil {A B} (f : A -> list B) (l : list A) :
  (forall a, In a l -> f a = []) -> flat_map f l = [].
Proof.
  induction l as [|a l IH]; intros H; simpl; [reflexivity|].
  rewrite (H a (or_introl eq_refl)). apply IH. intros b Hb. apply H. now right.
Qed.

(** In a list without repetition, a function that is empty everywhere but at
    one element contributes at that element only. *)
Lemma flat_map_single {B} (f : nat -> list B) (l : list nat) (x : nat) :
  NoDup l -> In x l -> (forall y, In y l -> y <> x -> f y = []) ->
  flat_map f l = f x.
Proof.
  induction 1 as [|a l Ha Hl IH]; intros Hin Hf; [destruct Hin|].
  cbn [flat_map]. destruct Hin as [->|Hin].
  - rewrite flat_map_all_nil; [apply app_nil_r|].
    intros y Hy. apply Hf; [now right|]. intros ->. exact (Ha Hy).
  - rewrite (Hf a (or_introl eq_refl)); [|intros ->; exact (Ha Hin)].
    apply IH; [exact Hin|]. intros y Hy. apply Hf. now right.
Qed.

Lemma distinct_In (l : list nat) :
  forall seen x, In x (distinct seen l) <-> In x l /\ ~ In x seen.
Proof.
  induction l as [|a l IH]; intros seen x; cbn [distinct].
  - simpl. split; [intros [] | intros [[] _]].
  - destruct (existsb (Nat.eqb a) seen) eqn:E.
    + apply existsb_exists in E as (y & Hy & Ey). apply Nat.eqb_eq in Ey. subst y.
      rewrite IH. split.
      * intros [H1 H2]. split; [now right | exact H2].
      * intros [[->|H1] H2]; [destruct (H2 Hy) | split; assumption].
    + assert (Ha : ~ In a seen).
      { intros Hin. assert (existsb (Nat.eqb a) seen = true); [|congruence].
        apply existsb_exists. exists a. split; [exact Hin | apply Nat.eqb_refl]. }
      cbn [In]. rewrite IH. cbn [In]. split.
      * intros [->|[H1 H2]]; [split; [now left | exact Ha]|].
        split; [now right|]. intros H. apply H2. now right.
      * intros [[->|H1] H2]; [now left|].
        destruct (Nat.eq_dec a x) as [->|Hne]; [now left|].
        right. split; [exact H1|]. intros [H|H]; [exact (Hne H) | exact (H2 H)].
Qed.

Lemma distinct_NoDup (l : list nat) : forall seen, NoDup (distinct seen l).
Proof.
  induction l as [|a l IH]; intros seen; cbn [distinct]; [constructor|].
  destruct (existsb (Nat.eqb a) seen); [apply IH|].
  constructor; [|apply IH].
  intros H. apply distinct_In in H as [_ H]. apply H. now left.
Qed.

(** The tree of a token labelled "ROOT" is among the trees searched. *)
Lemma trees_root (toks : list Token) (r : nat) :
  is_root toks r -> In (tree_root toks r) (trees VerbFinder toks).
Proof.
  intros Hr. unfold trees. apply distinct_In. split; [|intros []].
  apply in_map. pose proof Hr as (t & Ht & Hd).
  apply filter_In. split.
  - apply in_seq. assert (r < length toks) by (apply nth_error_Some; congruence). lia.
  - rewrite Ht. apply existsb_exists. exists (RIGHT_ATTRS root_node).
    split; [now left|].
    apply root_candidates, candidates_spec in Hr as (t' & Ht' & Hm). congruence.
Qed.

Lemma top_ancestor_self (toks : list Token) (r : nat) (t : Token) :
  nth_error toks r = Some t -> head t = r ->
  forall fuel, top_ancestor toks fuel r = r.
Proof.
  intros Ht Hh [|fuel]; [reflexivity|]. cbn [top_ancestor]. unfold step_head.
  rewrite Ht, Hh, Nat.eqb_refl. reflexivity.
Qed.

(** The root is the top of its own tree, and so it is of its children's. *)
Lemma the_root_tree (toks : list Token) (r : nat) :
  the_root toks r -> tree_root toks r = r.
Proof.
  intros [(t & Ht & _ & Hh) _]. apply (top_ancestor_self toks r t Ht Hh).
Qed.

Lemma the_root_child_tree (toks : list Token) (r c : nat) :
  the_root toks r -> child_of toks r c -> tree_root toks c = r.
Proof.
  intros [(t & Ht & _ & Hh) _] (tc & Hc & Hhc & Hne). unfold tree_root.
  assert (Hlen : c < length toks) by (apply nth_error_Some; congruence).
  destruct (length toks) as [|n]; [lia|]. cbn [top_ancestor]. unfold step_head.
  rewrite Hc, Hhc.
  destruct (Nat.eqb r c) eqn:E; [apply Nat.eqb_eq in E; congruence|].
  apply (top_ancestor_self toks r t Ht Hh).
Qed.

Lemma the_root_is_root (toks : list Token) (r : nat) :
  the_root toks r -> is_root toks r.
Proof. intros [(t & Ht & Hd & _) _]. exists t. auto. Qed.

(** The candidates of a tree, in ascending order. *)
Lemma tree_candidates_split (tp : TokenPattern) (toks : list Token) (g x : nat) :
  In x (candidates tp toks) -> tree_root toks x = g ->
  exists l1 l2, tree_candidates tp toks g = l1 ++ x :: l2
                /\ forall a, In a l1 -> a < x /\ In a (candidates tp toks).
Proof.
  intros Hx Hg. destruct (candidates_split tp toks x Hx) as (l1 & l2 & E & Hl1).
  unfold tree_candidates. rewrite E, filter_app. cbn [filter].
  rewrite (proj2 (Nat.eqb_eq _ _) Hg).
  eexists _, _. split; [reflexivity|].
  intros a Ha. apply filter_In in Ha as [Ha _]. rewrite <- E. exact (Hl1 a Ha).
Qed.

(** Outside the tree of the one root no pattern matches. *)
Lemma dep_matches_other_tree (toks : list Token) (r g : nat) (pat : DepPattern) :
  the_root toks r -> g <> r -> dep_matches (root_node :: pat) toks g = [].
Proof.
  intros Hr Hg. unfold dep_matches. cbn [map product].
  destruct (tree_candidates (RIGHT_ATTRS root_node) toks g) as [|x l] eqn:E;
    [reflexivity|].
  exfalso. assert (Hx : In x (tree_candidates (RIGHT_ATTRS root_node) toks g))
    by (rewrite E; now left).
  apply tree_candidates_spec in Hx as [Hx Ht]. apply root_candidates in Hx.
  apply (proj2 Hr) in Hx. subst x. rewrite (the_root_tree toks r Hr) in Ht.
  congruence.
Qed.

(** With one root the matches are those in its tree, shape by shape. *)
Lemma DependencyMatcher_call_the_root (toks : list Token) (r : nat) :
  the_root toks r ->
  DependencyMatcher_call VerbFinder toks =
  map (pair "VERBPHRASE") (dep_matches shape_a toks r ++ dep_matches shape_b toks r
                           ++ dep_matches shape_c toks r).
Proof.
  intros Hr. unfold DependencyMatcher_call.
  assert (S : forall pat,
             flat_map (fun g => map (fun idxs => ("VERBPHRASE", idxs))
                                    (dep_matches (root_node :: pat) toks g))
                      (trees VerbFinder toks)
             = map (pair "VERBPHRASE") (dep_matches (root_node :: pat) toks r)).
  { intros pat.
    apply (flat_map_single
             (fun g => map (fun idxs => ("VERBPHRASE", idxs))
                           (dep_matches (root_node :: pat) toks g))).
    - apply distinct_NoDup.
    - rewrite <- (the_root_tree toks r Hr) at 1.
      apply trees_root, the_root_is_root, Hr.
    - intros g _ Hg. rewrite (dep_matches_other_tree toks r g pat Hr Hg).
      reflexivity. }
  unfold VerbFinder at 2. cbn [map flat_map fst snd].
  unfold shape_a at 1, shape_b at 1, shape_c at 1. rewrite !S.
  rewrite app_nil_r, !map_app. reflexivity.
Qed.

(** Shape a, in the tree of the root: the first match takes the lowest "VB"
    child and the lowest "MD" child. *)
Lemma shape_a_first (toks : list Token) (r v m : nat) :
  the_root toks r ->
  lowest (fun v => child_of toks r v /\ has_tag toks "VB" v) v ->
  lowest (fun m => child_of toks r m /\ has_tag toks "MD" m) m ->
  hd_error (dep_matches shape_a toks r) = Some [r; v; m].
Proof.
  intros Hr [[Cv Tv] Lv] [[Cm Tm] Lm].
  unfold dep_matches. rewrite hd_error_filter. cbn [map shape_a].
  destruct (tree_candidates_split _ toks r r
              (proj2 (root_candidates toks r) (the_root_is_root _ _ Hr))
              (the_root_tree _ _ Hr))
    as (R1 & R2 & ER & HR1).
  destruct (tree_candidates_split _ toks r v
              (proj2 (tag_candidates toks "VB" v) Tv)
              (the_root_child_tree _ _ _ Hr Cv))
    as (V1 & V2 & EV & HV1).
  destruct (tree_candidates_split _ toks r m
              (proj2 (tag_candidates toks "MD" m) Tm)
              (the_root_child_tree _ _ _ Hr Cm))
    as (M1 & M2 & EM & HM1).
  eapply find_product_cons; [exact ER | |].
  { intros a Ha t Ht. exfalso. destruct (HR1 a Ha) as [Hlt Hin].
    apply root_candidates in Hin. apply (proj2 Hr) in Hin. lia. }
  eapply find_product_cons; [exact EV | |].
  { intros a Ha t Ht. destruct (HV1 a Ha) as [Hlt Hin].
    apply in_product in Ht.
    inversion Ht as [|m' ? ? ? Hm' Ht2]; subst. inversion Ht2; subst.
    destruct (valid _ toks [r; a; m']) eqn:E; [exfalso | reflexivity].
    cbn in E. rewrite !andb_true_r in E. apply andb_true_iff in E as [E1 _].
    apply related_spec in E1. apply tag_candidates in Hin.
    apply (Lv a Hlt). split; assumption. }
  eapply find_product_cons; [exact EM | |].
  { intros a Ha t Ht. destruct (HM1 a Ha) as [Hlt Hin].
    destruct Ht as [<-|[]].
    destruct (valid _ toks [r; v; a]) eqn:E; [exfalso | reflexivity].
    cbn in E. rewrite !andb_true_r in E. apply andb_true_iff in E as [_ E2].
    apply related_spec in E2. apply tag_candidates in Hin.
    apply (Lm a Hlt). split; assumption. }
  cbn [product find].
  apply related_spec in Cv, Cm.
  cbn -[related]. rewrite Cv, Cm. reflexivity.
Qed.

Lemma shape_a_none (toks : list Token) (r : nat) :
  the_root toks r -> ~ modal_chain_at toks r -> dep_matches shape_a toks r = [].
Proof.
  intros Hr H. unfold dep_matches. apply filter_all_false. intros x Hx.
  apply in_product in Hx. cbn [map shape_a] in Hx.
  inversion Hx as [|r' ? ? ? Hr' Hx1]; subst.
  inversion Hx1 as [|v ? ? ? Hv Hx2]; subst.
  inversion Hx2 as [|m ? ? ? Hm Hx3]; subst. inversion Hx3; subst.
  destruct (valid _ toks [r'; v; m]) eqn:E; [exfalso | reflexivity].
  cbn in E. rewrite !andb_true_r in E. apply andb_true_iff in E as [E1 E2].
  apply related_spec in E1, E2.
  apply tree_candidates_spec in Hr' as [Hr' _], Hv as [Hv _], Hm as [Hm _].
  apply tag_candidates in Hv, Hm. apply root_candidates in Hr'.
  pose proof (proj2 Hr r' Hr') as ->.
  apply H. split; [exact Hr'|]. split; eauto.
Qed.

(** Shape b, in the tree of the root: the first match takes the lowest "AUX"
    child. *)
Lemma shape_b_first (toks : list Token) (r a : nat) :
  the_root toks r ->
  lowest (fun a => child_of toks r a /\ has_pos toks "AUX" a) a ->
  hd_error (dep_matches shape_b toks r) = Some [r; a].
Proof.
  intros Hr [[Ca Pa] La].
  unfold dep_matches. rewrite hd_error_filter. cbn [map shape_b].
  destruct (tree_candidates_split _ toks r r
              (proj2 (root_candidates toks r) (the_root_is_root _ _ Hr))
              (the_root_tree _ _ Hr))
    as (R1 & R2 & ER & HR1).
  destruct (tree_candidates_split _ toks r a
              (proj2 (pos_candidates toks "AUX" a) Pa)
              (the_root_child_tree _ _ _ Hr Ca))
    as (A1 & A2 & EA & HA1).
  eapply find_product_cons; [exact ER | |].
  { intros x Hx t Ht. exfalso. destruct (HR1 x Hx) as [Hlt Hin].
    apply root_candidates in Hin. apply (proj2 Hr) in Hin. lia. }
  eapply find_product_cons; [exact EA | |].
  { intros x Hx t Ht. destruct (HA1 x Hx) as [Hlt Hin].
    destruct Ht as [<-|[]].
    destruct (valid _ toks [r; x]) eqn:E; [exfalso | reflexivity].
    cbn in E. rewrite !andb_true_r in E.
    apply related_spec in E. apply pos_candidates in Hin.
    apply (La x Hlt). split; assumption. }
  cbn [product find].
  apply related_spec in Ca.
  cbn -[related]. rewrite Ca. reflexivity.
Qed.

Lemma shape_b_none (toks : list Token) (r : nat) :
  the_root toks r -> ~ auxiliary_at toks r -> dep_matches shape_b toks r = [].
Proof.
  intros Hr H. unfold dep_matches. apply filter_all_false. intros x Hx.
  apply in_product in Hx. cbn [map shape_b] in Hx.
  inversion Hx as [|r' ? ? ? Hr' Hx1]; subst.
  inversion Hx1 as [|a ? ? ? Ha Hx2]; subst. inversion Hx2; subst.
  destruct (valid _ toks [r'; a]) eqn:E; [exfalso | reflexivity].
  cbn in E. rewrite !andb_true_r in E.
  apply related_spec in E.
  apply tree_candidates_spec in Hr' as [Hr' _], Ha as [Ha _].
  apply pos_candidates in Ha. apply root_candidates in Hr'.
  pose proof (proj2 Hr r' Hr') as ->.
  apply H. split; [exact Hr'|]. eauto.
Qed.

(** Shape c, in the tree of the root: the root alone. *)
Lemma shape_c_first (toks : list Token) (r : nat) :
  the_root toks r -> hd_error (dep_matches shape_c toks r) = Some [r].
Proof.
  intros Hr.
  unfold dep_matches. rewrite hd_error_filter. cbn [map shape_c].
  destruct (tree_candidates_split _ toks r r
              (proj2 (root_candidates toks r) (the_root_is_root _ _ Hr))
              (the_root_tree _ _ Hr))
    as (R1 & R2 & ER & HR1).
  eapply find_product_cons; [exact ER | |].
  { intros x Hx t Ht. exfalso. destruct (HR1 x Hx) as [Hlt Hin].
    apply root_candidates in Hin. apply (proj2 Hr) in Hin. lia. }
  reflexivity.
Qed.

Lemma shape_none_without_root (pat : DepPattern) (toks : list Token) (g : nat) :
  (forall r, ~ is_root toks r) -> dep_matches (root_node :: pat) toks g = [].
Proof.
  intros H. unfold dep_matches. cbn [map product].
  destruct (tree_candidates (RIGHT_ATTRS root_node) toks g) as [|r l] eqn:E;
    [reflexivity|].
  exfalso. apply (H r). apply root_candidates.
  apply (tree_candidates_spec _ toks g r). rewrite E. now left.
Qed.

(** Without a token labelled "ROOT" the verb finder has no match and returns
    [None]. *)
Lemma VerbFinder_no_root (toks : list Token) :
  (forall r, ~ is_root toks r) -> VerbFinder_call toks = None.
Proof.
  intros H. rewrite VerbFinder_call_first.
  replace (DependencyMatcher_call VerbFinder toks) with (@nil (string * list nat));
    [reflexivity|].
  symmetry. unfold DependencyMatcher_call. apply flat_map_all_nil.
  intros kp Hkp. apply flat_map_all_nil. intros g _.
  unfold VerbFinder in Hkp. cbn [map] in Hkp.
  destruct Hkp as [<-|[<-|[<-|[]]]]; cbn [snd];
    unfold shape_a, shape_b, shape_c;
    rewrite (shape_none_without_root _ toks g H); reflexivity.
Qed.

(** C8: the verb finder uses the first of its three shapes that matches.  In
    a sentence with its root - the one token labelled "ROOT", its own head -
    shape a, when the root has a "VB" child and an "MD" child, gives the root
    with its lowest "VB" child and its lowest "MD" child; when shape a does
    not match, shape b gives the root with its lowest "AUX" child; when
    neither matches, shape c gives the root alone. *)
Theorem VerbFinder_first_shape (toks : list Token) (r : nat) :
  the_root toks r ->
  (forall v m,
      lowest (fun v => child_of toks r v /\ has_tag toks "VB" v) v ->
      lowest (fun m => child_of toks r m /\ has_tag toks "MD" m) m ->
      VerbFinder_call toks = Some (sorted [r; v; m]))
  /\ (forall a,
        ~ modal_chain_at toks r ->
        lowest (fun a => child_of toks r a /\ has_pos toks "AUX" a) a ->
        VerbFinder_call toks = Some (sorted [r; a]))
  /\ (~ modal_chain_at toks r ->
      ~ auxiliary_at toks r ->
      VerbFinder_call toks = Some [r]).
Proof.
  intros Hr.
  rewrite VerbFinder_call_first, (DependencyMatcher_call_the_root toks r Hr).
  split; [|split].
  - intros v m Hv Hm.
    pose proof (shape_a_first toks r v m Hr Hv Hm) as H.
    destruct (dep_matches shape_a toks r) as [|x l]; [discriminate|].
    injection H as ->. reflexivity.
  - intros a Na Ha.
    rewrite (shape_a_none toks r Hr Na). cbn [app].
    pose proof (shape_b_first toks r a Hr Ha) as H.
    destruct (dep_matches shape_b toks r) as [|x l]; [discriminate|].
    injection H as ->. reflexivity.
  - intros Na Nb.
    rewrite (shape_a_none toks r Hr Na), (shape_b_none toks r Hr Nb). cbn [app].
    pose proof (shape_c_first toks r Hr) as H.
    destruct (dep_matches shape_c toks r) as [|x l]; [discriminate|].
    injection H as ->. reflexivity.
Qed.

(** ** The handlers *)

(** C2 (what the code does): without a token labelled "ROOT" the verb finder
    returns [None], not an empty list; the two question handlers iterate over
    it and raise [TypeError], as the reply to "Why not?" shows. *)
Theorem no_root_breaks_question_handlers :
  (forall toks, (forall r, ~ is_root toks r) -> VerbFinder_call toks = None)
  /\ (forall sentence tape,
        yn_question_handler sentence None tape = (Raise TypeError, tape))
  /\ (forall sentence tape,
        tokens sentence <> [] ->
        wh_question_handler sentence None tape = (Raise TypeError, tape))
  /\ (VerbFinder_call (tokens why_not) = None
      /\ SentenceTyper_call (tokens why_not) = Some WH_QUESTION
      /\ forall tape, reply_to why_not tape = (Raise TypeError, tape)).
Proof.
  split; [exact VerbFinder_no_root|]. split; [reflexivity|]. split.
  - intros [toks chunks] tape Hne. simpl in Hne.
    destruct toks as [|t0 toks]; [congruence | reflexivity].
  - split; [reflexivity|]. split; reflexivity.
Qed.

(** A sentence whose first token starts it and is tagged "WP" is a
    wh-question, whatever follows. *)
Lemma SentenceTyper_WP_first (t0 : Token) (rest : list Token) :
  is_sent_start t0 = true -> tag_ t0 = "WP" ->
  SentenceTyper_call (t0 :: rest) = Some WH_QUESTION.
Proof.
  intros Hs Ht. rewrite SentenceTyper_call_first. cbn [find_loop].
  simpl app. fold (fresh SentenceTyper 0).
  unfold emitted, get_action. cbn -[token_matches find_loop].
  replace (token_matches _ t0) with true; [reflexivity|].
  unfold token_matches. simpl. rewrite Hs, Ht. reflexivity.
Qed.

Lemma random_choice_In (seq : list text) (tape : list nat) :
  seq <> [] ->
  exists x tape', random_choice seq tape = (Ok x, tape') /\ In x seq.
Proof.
  intros Hne. destruct seq as [|a seq]; [congruence|].
  destruct tape as [|n tape]; unfold random_choice.
  - exists a, []. split; [reflexivity | now left].
  - eexists _, tape. split; [reflexivity|].
    apply nth_In. apply Nat.mod_upper_bound. discriminate.
Qed.

(** C3 (amended): a sentence whose first token starts it and is tagged "WP"
    is given the wh-question handler; for "What is your name?" the verb
    phrase is the root "is", and the reply is one of the two prefixes, then
    "what my name is" (it begins with "what" and contains "my name"), then
    one of the three suffixes. *)
Theorem what_is_your_name_reply :
  (forall t0 rest, is_sent_start t0 = true -> tag_ t0 = "WP" ->
                   SentenceTyper_call (t0 :: rest) = Some WH_QUESTION)
  /\ SentenceTyper_call (tokens what_is_your_name) = Some WH_QUESTION
  /\ VerbFinder_call (tokens what_is_your_name) = Some [1]
  /\ forall tape, exists prefix suffix tape',
       reply_to what_is_your_name tape
       = (Ok ((prefix ++ py "what my name is") ++ suffix), tape')
       /\ In prefix [py "I don't know "; py "I can't say "]
       /\ In suffix
            [ py ", but I'll try to find out for you. Please check in with me again later.";
              py ", but perhaps that's something I'd be able to find out for you. Remind me, if I forget.";
              py ". I'll see if I can find out, though. Ask me again sometime." ].
Proof.
  split; [exact SentenceTyper_WP_first|].
  split; [reflexivity|]. split; [reflexivity|].
  intros tape.
  assert (E : reply_to what_is_your_name tape
              = (prefix <- random_choice [py "I don't know "; py "I can't say "] ;;
                 suffix <- random_choice
                   [ py ", but I'll try to find out for you. Please check in with me again later.";
                     py ", but perhaps that's something I'd be able to find out for you. Remind me, if I forget.";
                     py ". I'll see if I can find out, though. Ask me again sometime." ] ;;
                 ret ((prefix ++ py "what my name is") ++ suffix)) tape)
    by reflexivity.
  rewrite E. unfold bind.
  destruct (random_choice_In [py "I don't know "; py "I can't say "] tape)
    as (p & tape1 & -> & Hp); [discriminate|].
  match goal with
  | |- context [random_choice ?l tape1] =>
      destruct (random_choice_In l tape1) as (x & tape2 & -> & Hx); [discriminate|]
  end.
  exists p, x, tape2. split; [reflexivity|]. split; assumption.
Qed.

(** C10: the wish, instruction and generic handlers do not read the verb
    indices: with the same random draws, any two values of that argument,
    [None] included, give the same reply. *)
Theorem handlers_ignore_verbs (sentence : Sentence)
        (verbs_idxs verbs_idxs' : option (list nat)) (tape : list nat) :
  wish_handler sentence verbs_idxs tape = wish_handler sentence verbs_idxs' tape
  /\ instruction_handler sentence verbs_idxs tape
     = instruction_handler sentence verbs_idxs' tape
  /\ generic_handler sentence verbs_idxs tape
     = generic_handler sentence verbs_idxs' tape.
Proof.
  unfold wish_handler, instruction_handler, generic_handler.
  split; [|split]; reflexivity.
Qed.

(** ** The verb finder and the replies, further properties *)

Lemma has_root_spec (toks : list Token) :
  has_root toks = true <-> exists r, is_root toks r.
Proof.
  unfold has_root, is_root. rewrite existsb_exists. split.
  - intros (t & Hin & Ht). apply In_nth_error in Hin as [r Hr].
    exists r, t. split; [exact Hr | apply String.eqb_eq, Ht].
  - intros (r & t & Hr & Ht). exists t. split.
    + eapply nth_error_In, Hr.
    + apply String.eqb_eq, Ht.
Qed.

Lemma has_root_false (toks : list Token) :
  has_root toks = false <-> forall r, ~ is_root toks r.
Proof.
  split.
  - intros H r Hr. assert (has_root toks = true) by (apply has_root_spec; eauto).
    congruence.
  - intros H. destruct (has_root toks) eqn:E; [|reflexivity].
    apply (proj1 (has_root_spec _)) in E as [r Hr]. destruct (H r Hr).
Qed.

(** What the verb finder returns is the sorted first match. *)
Lemma VerbFinder_call_some (toks : list Token) (idxs : list nat) :
  VerbFinder_call toks = Some idxs ->
  exists k m, In (k, m) (DependencyMatcher_call VerbFinder toks) /\ idxs = sorted m.
Proof.
  unfold VerbFinder_call.
  destruct (DependencyMatcher_call VerbFinder toks) as [|[k m] ms]; [discriminate|].
  intros H. injection H as <-. exists k, m. split; [now left | reflexivity].
Qed.

(** With a root, shape c at least matches. *)
Lemma VerbFinder_with_root (toks : list Token) (r : nat) :
  is_root toks r -> exists idxs, VerbFinder_call toks = Some idxs.
Proof.
  intros Hr.
  assert (Hin : In ("VERBPHRASE", [r]) (DependencyMatcher_call VerbFinder toks)).
  { unfold DependencyMatcher_call. apply in_flat_map.
    exists ("VERBPHRASE", shape_c). split; [unfold VerbFinder; simpl; tauto|].
    apply in_flat_map. exists (tree_root toks r). split; [apply trees_root, Hr|].
    cbn [fst snd]. apply in_map.
    unfold dep_matches. apply filter_In. split; [|reflexivity].
    cbn [map shape_c product]. apply in_flat_map. exists r. split.
    - apply tree_candidates_spec. split; [apply root_candidates, Hr | reflexivity].
    - now left. }
  unfold VerbFinder_call.
  destruct (DependencyMatcher_call VerbFinder toks) as [|[k m] ms]; [destruct Hin|].
  eexists. reflexivity.
Qed.

(** X1: the verb finder returns [None] exactly for the sentences without a
    token labelled "ROOT". *)
Theorem VerbFinder_none_iff_no_root (toks : list Token) :
  VerbFinder_call toks = None <-> forall r, ~ is_root toks r.
Proof.
  split.
  - intros H r Hr. destruct (VerbFinder_with_root toks r Hr) as [idxs E]. congruence.
  - apply VerbFinder_no_root.
Qed.

Lemma insert_sorted_length (x : nat) (l : list nat) :
  length (insert_sorted x l) = S (length l).
Proof.
  induction l as [|y l IH]; simpl; [reflexivity|].
  destruct (Nat.leb x y); simpl; [reflexivity | now rewrite IH].
Qed.

Lemma sorted_length (l : list nat) : length (sorted l) = length l.
Proof.
  induction l as [|x l IH]; simpl; [reflexivity|].
  now rewrite insert_sorted_length, IH.
Qed.

Lemma is_root_in_range (toks : list Token) (r : nat) :
  is_root toks r -> r < length toks.
Proof. intros (t & Ht & _). apply nth_error_Some. congruence. Qed.

Lemma child_of_in_range (toks : list Token) (r c : nat) :
  child_of toks r c -> c < length toks.
Proof. intros (t & Ht & _). apply nth_error_Some. congruence. Qed.

(** The indices the verb finder returns are positions of tokens. *)
Lemma VerbFinder_in_range (toks : list Token) (idxs : list nat) :
  VerbFinder_call toks = Some idxs -> Forall (fun i => i < length toks) idxs.
Proof.
  intros H. apply VerbFinder_call_some in H as (k & m & Hin & ->).
  apply Forall_forall. intros i Hi. apply (proj1 (sorted_In _ _)) in Hi.
  apply VerbFinder_match_shape in Hin
    as [(r & v & x & -> & Hr & Cv & _ & Cx & _)|[(r & a & -> & Hr & Ca)|(r & -> & Hr)]];
    simpl in Hi.
  - destruct Hi as [<-|[<-|[<-|[]]]];
      eauto using is_root_in_range, child_of_in_range.
  - destruct Hi as [<-|[<-|[]]];
      eauto using is_root_in_range, child_of_in_range.
  - destruct Hi as [<-|[]]. eauto using is_root_in_range.
Qed.

(** X2: the verb finder returns between one and three indices, all of them
    positions of tokens of the sentence; one of them is a token labelled
    "ROOT" and the others are direct children of that token. *)
Theorem VerbFinder_indices (toks : list Token) (idxs : list nat) :
  VerbFinder_call toks = Some idxs ->
  1 <= length idxs <= 3
  /\ Forall (fun i => i < length toks) idxs
  /\ exists r, In r idxs /\ is_root toks r
               /\ forall i, In i idxs -> i <> r -> child_of toks r i.
Proof.
  intros H. split; [|split; [exact (VerbFinder_in_range toks idxs H)|]];
    apply VerbFinder_call_some in H as (k & m & Hin & ->);
    apply VerbFinder_match_shape in Hin
      as [(r & v & x & -> & Hr & Cv & _ & Cx & _)|[(r & a & -> & Hr & Ca)|(r & -> & Hr)]].
  - rewrite sorted_length. simpl. lia.
  - rewrite sorted_length. simpl. lia.
  - rewrite sorted_length. simpl. lia.
  - exists r. split; [apply (proj2 (sorted_In _ _)); now left|]. split; [exact Hr|].
    intros i Hi Hne. apply (proj1 (sorted_In _ _)) in Hi. simpl in Hi.
    destruct Hi as [<-|[<-|[<-|[]]]]; [congruence | exact Cv | exact Cx].
  - exists r. split; [apply (proj2 (sorted_In _ _)); now left|]. split; [exact Hr|].
    intros i Hi Hne. apply (proj1 (sorted_In _ _)) in Hi. simpl in Hi.
    destruct Hi as [<-|[<-|[]]]; [congruence | exact Ca].
  - exists r. split; [apply (proj2 (sorted_In _ _)); now left|]. split; [exact Hr|].
    intros i Hi Hne. apply (proj1 (sorted_In _ _)) in Hi. simpl in Hi.
    destruct Hi as [<-|[]]. congruence.
Qed.

(** The sentence typer never falls through its chain of comparisons. *)
Lemma SentenceTyper_call_some (toks : list Token) :
  exists h, SentenceTyper_call toks = Some h.
Proof.
  rewrite SentenceTyper_call_first.
  pose proof (find_loop_keys SentenceTyper toks 0 [] (Forall_nil _)) as H.
  destruct (find_loop SentenceTyper 0 toks []) as [|[[k a] b] ms].
  - exists GENERIC. reflexivity.
  - inversion H as [|? ? Hk _]; subst. simpl in Hk.
    repeat (destruct Hk as [<-|Hk]; [eexists; reflexivity|]). destruct Hk.
Qed.

(** Reading the texts of tokens at valid positions raises nothing and draws
    nothing. *)
Lemma verb_texts_ok (s : Sentence) (idxs : list nat) (tape : list nat) :
  Forall (fun i => i < length (tokens s)) idxs ->
  exists ys, verb_texts s (Some idxs) tape = (Ok ys, tape).
Proof.
  intros H. unfold verb_texts, iter. unfold bind at 1. unfold ret at 1.
  set (f := fun i : nat => _).
  induction H as [|i idxs Hi _ (ys & IH)]; cbn [mapM]; [eexists; reflexivity|].
  apply nth_error_Some in Hi.
  destruct (nth_error (tokens s) i) as [t|] eqn:E; [|congruence].
  assert (Ef : f i tape = (Ok (lower (text_ t)), tape)).
  { subst f. unfold bind, getitem. rewrite E. reflexivity. }
  unfold bind at 1. rewrite Ef. unfold bind. rewrite IH.
  eexists. reflexivity.
Qed.

Lemma two_choices_ok (l1 l2 : list text) (f : text -> text -> text) (tape : list nat) :
  l1 <> [] -> l2 <> [] ->
  exists reply tape',
    (prefix <- random_choice l1 ;; suffix <- random_choice l2 ;; ret (f prefix suffix)) tape
    = (Ok reply, tape').
Proof.
  intros H1 H2. unfold bind, ret.
  destruct (random_choice_In l1 tape H1) as (p & tape1 & -> & _).
  destruct (random_choice_In l2 tape1 H2) as (x & tape2 & -> & _).
  eexists _, _. reflexivity.
Qed.

(** How [reply_to] ends, by the sentence. *)
Lemma reply_to_cases (s : Sentence) (tape : list nat) :
  if answerable s
  then exists reply tape', reply_to s tape = (Ok reply, tape')
  else reply_to s tape = (Raise TypeError, tape).
Proof.
  unfold answerable, reply_to.
  destruct (SentenceTyper_call_some (tokens s)) as [h Hh]. rewrite Hh.
  assert (Hne : h = WH_QUESTION -> exists t0 rest, tokens s = t0 :: rest).
  { intros ->. destruct (tokens s) as [|t0 rest]; [discriminate | eauto]. }
  destruct (has_root (tokens s)) eqn:R.
  - cbn [orb]. apply (proj1 (has_root_spec _)) in R as [r Hr].
    destruct (VerbFinder_with_root _ r Hr) as [idxs Hv]. rewrite Hv.
    pose proof (VerbFinder_in_range _ _ Hv) as Hrange.
    destruct h; cbn [handler_of].
    + destruct (Hne eq_refl) as (t0 & rest & Ht).
      unfold wh_question_handler. unfold bind at 1. unfold getitem.
      rewrite Ht. cbn [nth_error]. unfold ret at 1.
      unfold bind at 1.
      destruct (verb_texts_ok s idxs tape Hrange) as (ys & ->).
      apply two_choices_ok; discriminate.
    + unfold yn_question_handler. unfold bind at 1.
      destruct (verb_texts_ok s idxs tape Hrange) as (ys & ->).
      apply two_choices_ok; discriminate.
    + apply two_choices_ok; discriminate.
    + apply two_choices_ok; discriminate.
    + eexists _, _. reflexivity.
  - cbn [orb]. pose proof (proj1 (has_root_false _) R) as R'.
    rewrite (VerbFinder_no_root _ R').
    destruct h; cbn [handler_of].
    + destruct (Hne eq_refl) as (t0 & rest & Ht).
      unfold wh_question_handler, bind, getitem. rewrite Ht. reflexivity.
    + reflexivity.
    + apply two_choices_ok; discriminate.
    + apply two_choices_ok; discriminate.
    + eexists _, _. reflexivity.
Qed.

(** X3: the reply to a sentence fails exactly when the sentence has no token
    labelled "ROOT" and is given the wh-question or the yes/no-question
    handler; the failure is a [TypeError] raised before any random draw.  In
    every other case there is a reply: the indices of the verb finder never
    lead to an [IndexError]. *)
Theorem reply_to_raises_iff (s : Sentence) (tape : list nat) :
  ((exists r, is_root (tokens s) r)
   \/ (SentenceTyper_call (tokens s) <> Some WH_QUESTION
       /\ SentenceTyper_call (tokens s) <> Some YN_QUESTION) ->
   exists reply tape', reply_to s tape = (Ok reply, tape'))
  /\ ((forall r, ~ is_root (tokens s) r) ->
      SentenceTyper_call (tokens s) = Some WH_QUESTION
      \/ SentenceTyper_call (tokens s) = Some YN_QUESTION ->
      reply_to s tape = (Raise TypeError, tape)).
Proof.
  pose proof (reply_to_cases s tape) as C. unfold answerable in C.
  destruct (SentenceTyper_call_some (tokens s)) as [h Hh]. rewrite Hh in *.
  split.
  - intros [Hr|[H1 H2]].
    + apply (proj2 (has_root_spec _)) in Hr. rewrite Hr in C. exact C.
    + destruct (has_root (tokens s)); [exact C|].
      destruct h; try exact C; congruence.
  - intros Hn Hq. apply (proj2 (has_root_false _)) in Hn. rewrite Hn in C.
    destruct Hq as [Hq|Hq]; injection Hq as ->; exact C.
Qed.

Lemma banter_loop_cases (sents : list Sentence) :
  forall reply tape,
    if forallb answerable sents
    then exists r tape', banter_loop sents reply tape = (Ok r, tape')
    else exists tape', banter_loop sents reply tape = (Raise TypeError, tape').
Proof.
  induction sents as [|s sents IH]; intros reply tape; cbn [forallb banter_loop].
  - eexists _, _. reflexivity.
  - pose proof (reply_to_cases s tape) as C. unfold bind.
    destruct (answerable s); cbn [andb].
    + destruct C as (r & tape1 & ->). apply IH.
    + rewrite C. eexists. reflexivity.
Qed.

(** X4: [banter] answers a message exactly when every sentence of it can be
    answered; one question sentence without a root makes the whole message
    fail with a [TypeError], whatever the other sentences are. *)
Theorem banter_all_or_nothing (sents : list Sentence) (tape : list nat) :
  ((exists reply tape', banter sents tape = (Ok reply, tape'))
   <-> forallb answerable sents = true)
  /\ ((exists tape', banter sents tape = (Raise TypeError, tape'))
      <-> forallb answerable sents = false).
Proof.
  pose proof (banter_loop_cases sents [] tape) as C. fold (banter sents) in C.
  destruct (forallb answerable sents).
  - destruct C as (r & tape1 & E). rewrite E. split; split; intros H.
    + reflexivity.
    + eauto.
    + destruct H as [? H]. discriminate.
    + discriminate.
  - destruct C as (tape1 & E). rewrite E. split; split; intros H.
    + destruct H as (? & ? & H). discriminate.
    + discriminate.
    + reflexivity.
    + eauto.
Qed.

Lemma banter_loop_reply (sents : list Sentence) :
  forall reply tape,
    banter_loop sents reply tape
    = match banter_loop sents [] tape with
      | (Ok r, tape') => (Ok (reply ++ r), tape')
      | (Raise e, tape') => (Raise e, tape')
      end.
Proof.
  induction sents as [|s sents IH]; intros reply tape; cbn [banter_loop].
  - unfold ret. now rewrite app_nil_r.
  - unfold bind. destruct (reply_to s tape) as [[r|e] tape1]; [|reflexivity].
    rewrite (IH (reply ++ r)), (IH ([] ++ r)). cbn [app].
    destruct (banter_loop sents [] tape1) as [[r'|e] tape2]; [|reflexivity].
    now rewrite app_assoc.
Qed.

Lemma banter_loop_app (a b : list Sentence) :
  forall reply tape,
    banter_loop (a ++ b) reply tape
    = match banter_loop a reply tape with
      | (Ok ra, tape1) => banter_loop b ra tape1
      | (Raise e, tape1) => (Raise e, tape1)
      end.
Proof.
  induction a as [|s a IH]; intros reply tape; cbn [app banter_loop].
  - reflexivity.
  - unfold bind. destruct (reply_to s tape) as [[r|e] tape1]; [|reflexivity].
    apply IH.
Qed.

(** X5: the reply to a message is the reply to its first sentences followed
    by the reply to the remaining ones, computed on the draws the first ones
    left; a failure in either part is the failure of the whole. *)
Theorem banter_app (a b : list Sentence) (tape : list nat) :
  banter (a ++ b) tape
  = match banter a tape with
    | (Ok ra, tape1) =>
        match banter b tape1 with
        | (Ok rb, tape2) => (Ok (ra ++ rb), tape2)
        | (Raise e, tape2) => (Raise e, tape2)
        end
    | (Raise e, tape1) => (Raise e, tape1)
    end.
Proof.
  unfold banter. rewrite banter_loop_app.
  destruct (banter_loop a [] tape) as [[ra|e] tape1]; [|reflexivity].
  apply banter_loop_reply.
Qed.

(** X6: a message whose sentences all get the generic handler is answered
    without a random draw, by the transformed texts of the sentences one
    after the other. *)
Theorem banter_generic (sents : list Sentence) (tape : list nat) :
  Forall (fun s => SentenceTyper_call (tokens s) = Some GENERIC) sents ->
  banter sents tape
  = (Ok (concat (map (fun s => transform (span_text (tokens s))) sents)), tape).
Proof.
  intros H. unfold banter. rewrite <- (app_nil_l (concat _)).
  generalize (@nil char) as reply.
  induction H as [|s sents Hs _ IH]; intros reply; cbn [banter_loop map concat].
  - unfold ret. now rewrite app_nil_r.
  - unfold bind, reply_to. rewrite Hs. cbn [handler_of].
    unfold generic_handler, ret. rewrite IH. now rewrite app_assoc.
Qed.

(** ** The sentence typer, further properties *)

Lemma find_loop_first (t0 : Token) (rest : list Token) :
  Forall (fun t => is_sent_start t = false) rest ->
  find_loop SentenceTyper 0 (t0 :: rest) []
  = emitted (fresh SentenceTyper 0) t0
    ++ drain rest (survivors (fresh SentenceTyper 0) t0).
Proof.
  intros H. cbn [find_loop]. rewrite (find_loop_drain rest H). reflexivity.
Qed.

(** X7: when only the first token starts a sentence, the handler depends on
    the first three tokens only. *)
Theorem SentenceTyper_three_tokens (toks : list Token) :
  Forall (fun t => is_sent_start t = false) (tl toks) ->
  SentenceTyper_call toks = SentenceTyper_call (firstn 3 toks).
Proof.
  destruct toks as [|t0 [|t1 [|t2 rest]]]; try reflexivity.
  cbn [tl firstn]. intros H.
  assert (H3 : Forall (fun t => is_sent_start t = false) [t1; t2]).
  { inversion H as [|? ? H1 H']; subst. inversion H' as [|? ? H2 _]; subst.
    repeat constructor; assumption. }
  rewrite !SentenceTyper_call_first.
  rewrite (find_loop_first _ _ H), (find_loop_first _ _ H3).
  unfold emitted, survivors, get_action. cbn -[token_matches]. split_atoms.
Qed.

(** X8: a sentence without a token flagged as a sentence start is given the
    generic handler, whatever its words are: every variant is anchored. *)
Theorem SentenceTyper_needs_sentence_start (toks : list Token) :
  Forall (fun t => is_sent_start t = false) toks ->
  SentenceTyper_call toks = Some GENERIC.
Proof.
  intros H. rewrite SentenceTyper_call_first, (find_loop_drain _ H), drain_nil.
  reflexivity.
Qed.

(** X9: some first tokens decide the handler whatever follows.  A first token
    that starts the sentence and is tagged "WDT", "WP", "WP$" or "WRB" gives
    the wh-question handler, one tagged "VB" the instruction handler; and,
    when no later token starts a sentence, one tagged "MD" followed by a
    token whose part of speech is "PRON", "PROPN" or "DET" gives the
    yes/no-question handler. *)
Theorem SentenceTyper_decided_by_first_tokens (t0 : Token) (rest : list Token) :
  is_sent_start t0 = true ->
  (In (tag_ t0) ["WDT"; "WP"; "WP$"; "WRB"] ->
   SentenceTyper_call (t0 :: rest) = Some WH_QUESTION)
  /\ (tag_ t0 = "VB" -> SentenceTyper_call (t0 :: rest) = Some INSTRUCTION)
  /\ (forall t1 rest',
        rest = t1 :: rest' ->
        Forall (fun t => is_sent_start t = false) rest ->
        tag_ t0 = "MD" -> In (pos_ t1) ["PRON"; "PROPN"; "DET"] ->
        SentenceTyper_call (t0 :: rest) = Some YN_QUESTION).
Proof.
  intros Hs. split; [|split].
  - intros Ht. rewrite SentenceTyper_call_first. cbn [find_loop].
    simpl app. fold (fresh SentenceTyper 0).
    unfold emitted, get_action. cbn -[token_matches find_loop].
    replace (token_matches _ t0) with true; [reflexivity|].
    unfold token_matches. simpl. rewrite Hs. simpl in Ht.
    destruct Ht as [<-|[<-|[<-|[<-|[]]]]]; reflexivity.
  - intros Ht. rewrite SentenceTyper_call_first. cbn [find_loop].
    simpl app. fold (fresh SentenceTyper 0).
    assert (W : token_matches
                  [(IS_SENT_START, Flag true); (TAG, IN ["WDT"; "WP"; "WP$"; "WRB"])] t0
                = false)
      by (unfold token_matches; simpl; rewrite Hs, Ht; reflexivity).
    assert (V : token_matches [(IS_SENT_START, Flag true); (TAG, Is "VB")] t0 = true)
      by (unfold token_matches; simpl; rewrite Hs, Ht; reflexivity).
    unfold emitted, get_action. cbn -[token_matches find_loop].
    rewrite W, V.
    repeat match goal with
           | |- context [token_matches ?p t0] => destruct (token_matches p t0)
           end; reflexivity.
  - intros t1 rest' -> H Ht Hp.
    rewrite SentenceTyper_call_first, (find_loop_first _ _ H).
    assert (W : token_matches
                  [(IS_SENT_START, Flag true); (TAG, IN ["WDT"; "WP"; "WP$"; "WRB"])] t0
                = false)
      by (unfold token_matches; simpl; rewrite Hs, Ht; reflexivity).
    assert (V : token_matches [(IS_SENT_START, Flag true); (TAG, Is "VB")] t0 = false)
      by (unfold token_matches; simpl; rewrite Hs, Ht; reflexivity).
    assert (Y : token_matches [(IS_SENT_START, Flag true); (TAG, Is "MD")] t0 = true)
      by (unfold token_matches; simpl; rewrite Hs, Ht; reflexivity).
    assert (P : token_matches [(POS, IN ["PRON"; "PROPN"; "DET"])] t1 = true).
    { unfold token_matches. cbn [forallb attr_holds attr_str].
      rewrite andb_true_r. apply existsb_exists.
      exists (pos_ t1). split; [exact Hp | apply String.eqb_refl]. }
    unfold emitted, survivors, get_action. cbn -[token_matches].
    rewrite W, V, Y. cbn -[token_matches].
    repeat (match goal with
            | |- context [token_matches ?p t0] => destruct (token_matches p t0)
            end; cbn -[token_matches]);
      rewrite P; reflexivity.
Qed.

(** ** The point-of-view substitution, further properties *)

Lemma povs_keys_initial :
  Forall (fun k => exists c k', k = c :: k' /\ In c key_initials) (alts povs_c).
Proof.
  simpl. repeat (constructor; [eexists _, _; split; [reflexivity|]; simpl; tauto|]).
  constructor.
Qed.

Lemma scan_no_initial (s : text) :
  (forall c, In c s -> ~ In c key_initials) ->
  forall prevw, scan povs_c prevw s 0 = map Lit s.
Proof.
  induction s as [|c rest IH]; intros H prevw; [reflexivity|].
  cbn [scan map].
  destruct (match_here povs_c prevw (c :: rest)) as [m|] eqn:E.
  - exfalso. destruct (match_here_whole_word _ _ _ E) as (Hin & _ & r & Hs & _).
    pose proof povs_keys_initial as K. rewrite Forall_forall in K.
    destruct (K m Hin) as (c' & k' & -> & Hc'). injection Hs as -> _.
    exact (H c' (or_introl eq_refl) Hc').
  - f_equal. apply IH. intros x Hx. apply H. now right.
Qed.

(** X10: a text that contains none of the letters "I", "y" and "m" has no
    match and comes out of the substitution as it went in. *)
Theorem transform_without_initials (s : text) :
  (forall c, In c s -> ~ In c key_initials) -> transform s = s.
Proof.
  intros H. unfold transform, re_sub. rewrite (scan_no_initial s H).
  apply flat_map_Lit.
Qed.

Lemma povs_keys_chars :
  Forall (fun k => forall c, In c k -> is_word c = true \/ In c key_joiners)
         (alts povs_c).
Proof.
  assert (H : forallb (forallb (fun c => is_word c || existsb (N.eqb c) key_joiners))
                      (alts povs_c) = true) by (vm_compute; reflexivity).
  rewrite forallb_forall in H. apply Forall_forall. intros k Hk c Hc.
  specialize (H k Hk). rewrite forallb_forall in H. specialize (H c Hc).
  apply orb_true_iff in H as [H|H]; [now left | right].
  apply existsb_exists in H as (x & Hx & E). apply N.eqb_eq in E. now subst.
Qed.

Lemma startswith_before (k s b : text) (sep : char) :
  ~ In sep k -> startswith k (s ++ sep :: b) = startswith k s.
Proof.
  revert s; induction k as [|x k IH]; intros s H; [reflexivity|].
  destruct s as [|y s]; cbn [app startswith].
  - destruct (N.eqb x sep) eqn:E; [|reflexivity].
    apply N.eqb_eq in E. subst. exfalso. apply H. now left.
  - rewrite IH; [reflexivity|]. intros Hin. apply H. now right.
Qed.

Lemma startswith_length (k s : text) :
  startswith k s = true -> length k <= length s.
Proof.
  revert s; induction k as [|x k IH]; intros [|y s]; simpl; try lia; try discriminate.
  intros H. apply andb_true_iff in H as [_ H]. apply IH in H. lia.
Qed.

Lemma word_at_before (s b : text) (sep : char) :
  is_word sep = false -> word_at (s ++ sep :: b) = word_at s.
Proof. intros H. destruct s; [exact H | reflexivity]. Qed.

Lemma find_ext_in {A} (f g : A -> bool) (l : list A) :
  (forall a, In a l -> f a = g a) -> find f l = find g l.
Proof.
  induction l as [|a l IH]; intros H; [reflexivity|]. cbn [find].
  rewrite (H a (or_introl eq_refl)). destruct (g a); [reflexivity|].
  apply IH. intros b Hb. apply H. now right.
Qed.

(** Before a separator the pattern matches as it does at the end of a text. *)
Lemma match_here_before (s b : text) (sep : char) (prevw : bool) :
  is_word sep = false -> ~ In sep key_joiners ->
  match_here povs_c prevw (s ++ sep :: b) = match_here povs_c prevw s.
Proof.
  intros Hw Hj. unfold match_here, boundary. rewrite (word_at_before _ _ _ Hw).
  destruct (xorb prevw (word_at s)); [|reflexivity].
  pose proof povs_keys_chars as K. rewrite Forall_forall in K.
  assert (Hk : forall k, In k (alts povs_c) ->
               alt_matches prevw (s ++ sep :: b) k = alt_matches prevw s k).
  { intros k Hin. unfold alt_matches.
    assert (Hsep : ~ In sep k).
    { intros Hin'. destruct (K k Hin sep Hin') as [E|E]; [congruence | exact (Hj E)]. }
    rewrite (startswith_before k s b sep Hsep).
    destruct (startswith k s) eqn:P; [|reflexivity]. cbn [andb].
    apply startswith_length in P. unfold boundary.
    rewrite skipn_app. replace (length k - length s) with 0 by lia.
    cbn [skipn]. rewrite (word_at_before _ _ _ Hw). reflexivity. }
  apply find_ext_in, Hk.
Qed.

Lemma match_here_length (prevw : bool) (s m : text) :
  match_here povs_c prevw s = Some m -> 1 <= length m <= length s.
Proof.
  intros H. destruct (match_here_whole_word _ _ _ H) as (Hin & _ & r & Hs & _).
  pose proof povs_keys_shape as Sh. rewrite Forall_forall in Sh.
  destruct (Sh m Hin) as (Hne & _). split.
  - destruct m; [congruence | simpl; lia].
  - apply (f_equal (@length _)) in Hs. rewrite length_app in Hs. lia.
Qed.

Lemma scan_before (a b : text) (sep : char) :
  is_word sep = false -> ~ In sep key_joiners ->
  forall prevw skip,
    skip <= length a ->
    scan povs_c prevw (a ++ sep :: b) skip
    = scan povs_c prevw a skip ++ Lit sep :: scan povs_c false b 0.
Proof.
  intros Hw Hj. induction a as [|c a IH]; intros prevw skip Hskip.
  - simpl in Hskip. replace skip with 0 by lia. cbn [app scan].
    destruct (match_here povs_c prevw (sep :: b)) as [m|] eqn:E.
    + exfalso. destruct (match_here_whole_word _ _ _ E) as (Hin & _ & r & Hs & _).
      pose proof povs_keys_shape as Sh. rewrite Forall_forall in Sh.
      destruct (Sh m Hin) as (Hne & Hfirst & _).
      destruct m as [|x m]; [congruence|]. injection Hs as <- _.
      simpl in Hfirst. congruence.
    + rewrite Hw. reflexivity.
  - cbn [app scan]. destruct skip as [|k].
    + change (c :: a ++ sep :: b) with ((c :: a) ++ sep :: b).
      rewrite (match_here_before _ _ _ _ Hw Hj).
      destruct (match_here povs_c prevw (c :: a)) as [m|] eqn:E.
      * apply match_here_length in E. simpl in E.
        rewrite IH by lia. reflexivity.
      * rewrite IH by lia. reflexivity.
    + simpl in Hskip. rewrite IH by lia. reflexivity.
Qed.

(** X11: the substitution is local.  Around a character that is neither a
    word character nor a blank nor an apostrophe (a comma, a full stop, a
    question mark), the two sides are transformed independently. *)
Theorem transform_around_separator (a b : text) (sep : char) :
  is_word sep = false -> ~ In sep key_joiners ->
  transform (a ++ sep :: b) = transform a ++ sep :: transform b.
Proof.
  intros Hw Hj. unfold transform, re_sub.
  rewrite (scan_before a b sep Hw Hj false 0) by lia.
  rewrite flat_map_app. reflexivity.
Qed.

(** X12: on the keys of the lexicon the substitution undoes itself, except
    for "yours" and "me", whose values "mine" and "you" lead elsewhere:
    "yours" ends as "mine" and "me" as "I". *)
Theorem transform_keys_round_trip :
  (forall k v, In (k, v) povs -> k <> py "yours" -> k <> py "me" ->
               transform (transform k) = k)
  /\ transform (transform (py "yours")) = py "mine"
  /\ transform (transform (py "me")) = py "I".
Proof.
  split; [|split; vm_compute; reflexivity].
  intros k v H Hy Hm. simpl in H.
  repeat (destruct H as [H|H];
          [injection H as <- <-;
           first [vm_compute; reflexivity | exfalso; apply Hy; reflexivity
                 | exfalso; apply Hm; reflexivity]|]).
  destruct H.
Qed.

(** ** The conversation *)


Lemma is_command_none (commands : list text) (u : Update) :
  command u = None -> is_command commands u = false.
Proof. intros H. unfold is_command. now rewrite H. Qed.




(** X14: a message that is not a command is ignored outside a conversation;
    inside, it is answered by the reply of [banter] to its sentences, and
    when [banter] raises nothing is sent; either way the conversation stays
    open. *)
Theorem text_message_handling (u : Update) (tape : list nat) :
  command u = None ->
  handle_update conv_handler None u tape = ((None, None), tape)
  /\ handle_update conv_handler (Some "BANTER") u tape
     = match banter (nlp (msg_text u)) tape with
       | (Ok reply, tape') => ((Some "BANTER", Some reply), tape')
       | (Raise _, tape') => ((Some "BANTER", None), tape')
       end.
Proof.
  intros H. unfold handle_update. split.
  - cbn -[banter is_command py]. rewrite (is_command_none _ u H). reflexivity.
  - cbn -[banter is_command py]. rewrite H. cbn -[banter is_command py].
    unfold banter_update, bind, ret.
  destruct (banter (nlp (msg_text u)) tape) as [[r|e] tape']; reflexivity.
Qed.

End ChatBot.

(** * The properties on the example sentences *)



(** The reply to "What is your name?" with the first prefix and the first
    suffix drawn: it begins with the prefix, not with "what". *)
Lemma what_is_your_name_reply_prefixed :
  reply_to ascii_only_word ascii_only_lower what_is_your_name [0; 0]
  = (Ok (py "I don't know what my name is, but I'll try to find out for you. Please check in with me again later."), [])
  /\ startswith (py "what")
       (py "I don't know what my name is, but I'll try to find out for you. Please check in with me again later.")
     = false.
Proof. split; vm_compute; reflexivity. Qed.

Lemma what_is_your_name_reply_witness :
  is_sent_start tok_What = true /\ tag_ tok_What = "WP"
  /\ SentenceTyper_call (tokens what_is_your_name) = Some WH_QUESTION.
Proof.
  split; [reflexivity|]. split; [reflexivity|].
  exact (proj1 (what_is_your_name_reply ascii_only_word ascii_only_lower)
               tok_What (tl (tokens what_is_your_name)) eq_refl eq_refl).
Defined.



Lemma VerbFinder_ascending_witness :
  VerbFinder_call (tokens i_would_like_to_go) = Some [1; 2; 4]
  /\ ascending [1; 2; 4] /\ NoDup [1; 2; 4].
Proof.
  assert (H : VerbFinder_call (tokens i_would_like_to_go) = Some [1; 2; 4])
    by reflexivity.
  split; [exact H|].
  exact (VerbFinder_ascending (tokens i_would_like_to_go) [1; 2; 4] H).
Defined.

Lemma i_would_like_to_go_root : the_root (tokens i_would_like_to_go) 2.
Proof.
  split.
  - eexists. split; [reflexivity|]. split; reflexivity.
  - intros n (t & Ht & Hd).
    destruct n as [|[|[|[|[|[|n]]]]]]; simpl in Ht;
      try (injection Ht as <-; discriminate); [reflexivity|].
    destruct n; discriminate.
Qed.

Lemma i_would_like_to_go_VB :
  lowest (fun v => child_of (tokens i_would_like_to_go) 2 v
                   /\ has_tag (tokens i_would_like_to_go) "VB" v) 4.
Proof.
  split.
  - split; [eexists; split; [reflexivity | split; [reflexivity | lia]] | eexists; split; reflexivity].
  - intros n Hn ((t & Ht & Hh & Hne) & (t' & Ht' & Hg)).
    destruct n as [|[|[|[|n]]]]; [| | lia | | lia];
      simpl in Ht'; injection Ht' as <-; discriminate.
Qed.

Lemma i_would_like_to_go_MD :
  lowest (fun m => child_of (tokens i_would_like_to_go) 2 m
                   /\ has_tag (tokens i_would_like_to_go) "MD" m) 1.
Proof.
  split.
  - split; [eexists; split; [reflexivity | split; [reflexivity | lia]] | eexists; split; reflexivity].
  - intros n Hn (_ & (t' & Ht' & Hg)).
    destruct n as [|n]; [|lia]. simpl in Ht'. injection Ht' as <-. discriminate.
Qed.

Lemma VerbFinder_first_shape_witness :
  the_root (tokens i_would_like_to_go) 2
  /\ VerbFinder_call (tokens i_would_like_to_go) = Some [1; 2; 4].
Proof.
  split; [exact i_would_like_to_go_root|].
  exact (proj1 (VerbFinder_first_shape (tokens i_would_like_to_go) 2
                  i_would_like_to_go_root) 4 1
               i_would_like_to_go_VB i_would_like_to_go_MD).
Defined.

(** * The further properties on examples *)

Lemma VerbFinder_indices_witness :
  VerbFinder_call (tokens i_would_like_to_go) = Some [1; 2; 4]
  /\ 1 <= length [1; 2; 4] <= 3
  /\ Forall (fun i => i < length (tokens i_would_like_to_go)) [1; 2; 4]
  /\ exists r, In r [1; 2; 4] /\ is_root (tokens i_would_like_to_go) r
               /\ forall i, In i [1; 2; 4] -> i <> r ->
                            child_of (tokens i_would_like_to_go) r i.
Proof.
  assert (H : VerbFinder_call (tokens i_would_like_to_go) = Some [1; 2; 4])
    by reflexivity.
  split; [exact H|].
  exact (VerbFinder_indices (tokens i_would_like_to_go) [1; 2; 4] H).
Defined.

Lemma banter_generic_witness :
  Forall (fun s => SentenceTyper_call (tokens s) = Some GENERIC)
         [the_sky_is_blue; the_sky_is_blue]
  /\ banter ascii_only_word ascii_only_lower [the_sky_is_blue; the_sky_is_blue] [7]
     = (Ok (py "The sky is blue.The sky is blue."), [7]).
Proof.
  assert (H : Forall (fun s => SentenceTyper_call (tokens s) = Some GENERIC)
                     [the_sky_is_blue; the_sky_is_blue])
    by (repeat constructor).
  split; [exact H|].
  exact (banter_generic ascii_only_word ascii_only_lower
                        [the_sky_is_blue; the_sky_is_blue] [7] H).
Defined.

Lemma SentenceTyper_three_tokens_witness :
  Forall (fun t => is_sent_start t = false) (tl (tokens help_me_find_it))
  /\ SentenceTyper_call (tokens help_me_find_it)
     = SentenceTyper_call (firstn 3 (tokens help_me_find_it)).
Proof.
  assert (H : Forall (fun t => is_sent_start t = false) (tl (tokens help_me_find_it)))
    by (repeat constructor).
  split; [exact H|].
  exact (SentenceTyper_three_tokens (tokens help_me_find_it) H).
Defined.

Lemma SentenceTyper_needs_sentence_start_witness :
  Forall (fun t => is_sent_start t = false) (tl (tokens help_me_find_it))
  /\ SentenceTyper_call (tl (tokens help_me_find_it)) = Some GENERIC.
Proof.
  assert (H : Forall (fun t => is_sent_start t = false) (tl (tokens help_me_find_it)))
    by (repeat constructor).
  split; [exact H|].
  exact (SentenceTyper_needs_sentence_start (tl (tokens help_me_find_it)) H).
Defined.

Lemma SentenceTyper_decided_by_first_tokens_witness :
  is_sent_start tok_What = true
  /\ SentenceTyper_call (tokens what_is_your_name) = Some WH_QUESTION.
Proof.
  split; [reflexivity|].
  apply (proj1 (SentenceTyper_decided_by_first_tokens
                  tok_What (tl (tokens what_is_your_name)) eq_refl)).
  simpl. tauto.
Defined.

Lemma transform_without_initials_witness :
  (forall c, In c (py "Send the file.") -> ~ In c key_initials)
  /\ transform ascii_only_word (py "Send the file.") = py "Send the file.".
Proof.
  assert (H : forall c, In c (py "Send the file.") -> ~ In c key_initials).
  { intros c Hc Hi. simpl in Hc.
    repeat (destruct Hc as [<-|Hc];
            [simpl in Hi; destruct Hi as [Hi|[Hi|[Hi|[]]]]; discriminate|]).
    destruct Hc. }
  split; [exact H|].
  exact (transform_without_initials ascii_only_word (py "Send the file.") H).
Defined.

Lemma transform_around_separator_witness :
  is_word ascii_only_word 44%N = false /\ ~ In 44%N key_joiners
  /\ transform ascii_only_word (py "I am here, you are there")
     = py "you are here, I am there".
Proof.
  assert (Hw : is_word ascii_only_word 44%N = false) by reflexivity.
  assert (Hj : ~ In 44%N key_joiners)
    by (simpl; intros [H|[H|[]]]; discriminate).
  split; [exact Hw|]. split; [exact Hj|].
  exact (transform_around_separator ascii_only_word
           (py "I am here") (py " you are there") 44%N Hw Hj).
Defined.

Lemma text_message_handling_witness :
  command {| msg_text := py "The sky is blue."; command := None |} = None
  /\ handle_update
       (conv_handler ascii_only_word ascii_only_lower (fun _ => [the_sky_is_blue]))
       (Some "BANTER")
       {| msg_text := py "The sky is blue."; command := None |} []
     = ((Some "BANTER", Some (py "The sky is blue.")), []).
Proof.
  split; [reflexivity|].
  exact (proj2 (text_message_handling ascii_only_word ascii_only_lower
                  (fun _ => [the_sky_is_blue])
                  {| msg_text := py "The sky is blue."; command := None |} []
                  eq_refl)).
Defined.
